(* Shallow embedding of the Webasto Next Modbus integration:
   the register catalog (const.py), the read-plan builder, codec, retry
   policy, bulk read and life-bit loop of the transport (hub.py), and the
   virtual wallbox register store (virtual_wallbox/simulator.py). *)

From stdpp Require Import gmap strings list pretty.
From Stdlib Require Import QArith Qround Qabs Qpower Lqa Sorted.

Open Scope Z_scope.

(* ------------------------------------------------------------------ *)
(** * Register catalog (const.py) *)

Inductive REGISTER_TYPE := Input | Holding.
Inductive REGISTER_DATA_TYPE := Uint16 | Uint32 | StringT.
Inductive entity_kind := Sensor | NumberE | ButtonE | Diagnostic.
Inductive charset := Ascii | Utf8.

#[global] Instance register_type_eq_dec : EqDecision REGISTER_TYPE.
Proof. solve_decision. Defined.
#[global] Instance data_type_eq_dec : EqDecision REGISTER_DATA_TYPE.
Proof. solve_decision. Defined.
#[global] Instance entity_kind_eq_dec : EqDecision entity_kind.
Proof. solve_decision. Defined.
#[global] Instance charset_eq_dec : EqDecision charset.
Proof. solve_decision. Defined.
#[global] Instance Q_eq_dec : EqDecision Q.
Proof. solve_decision. Defined.

(** [RegisterDefinition] (frozen, slots dataclass).  The slots read by the
    transport and the simulator are modelled; the presentation-only slots
    (name, unit, device_class, state_class, icon, entity_category,
    options, min_value, max_value, step, translation_key) are not read by
    this code and are left out.  [encoding = None] is Python's [None]. *)
Record RegisterDefinition := {
  key : string;
  address : Z;
  count : Z;
  register_type : REGISTER_TYPE;
  data_type : REGISTER_DATA_TYPE;
  entity : entity_kind;
  scale : Q;  (* the exact value of the float *)
  writable : bool;
  write_only : bool;
  encoding : option charset
}.

#[global] Instance RegisterDefinition_eq_dec : EqDecision RegisterDefinition.
Proof. solve_decision. Defined.

(** The slot names declared by the dataclass, in declaration order. *)
Definition RegisterDefinition_slots : list string :=
  ["key"; "name"; "address"; "count"; "register_type"; "data_type"; "entity";
   "scale"; "unit"; "device_class"; "state_class"; "icon"; "entity_category";
   "options"; "writable"; "write_only"; "min_value"; "max_value"; "step";
   "encoding"; "translation_key"]%string.

(** Constructor with the dataclass defaults ([scale=1.0],
    [writable=False], [write_only=False], [encoding=None]). *)
Definition RD (k : string) (a c : Z) (rt : REGISTER_TYPE) (dt : REGISTER_DATA_TYPE)
    (e : entity_kind) : RegisterDefinition :=
  {| key := k; address := a; count := c; register_type := rt; data_type := dt;
     entity := e; scale := 1%Q; writable := false; write_only := false;
     encoding := None |}.

Definition with_scale (s : Q) (r : RegisterDefinition) : RegisterDefinition :=
  {| key := key r; address := address r; count := count r;
     register_type := register_type r; data_type := data_type r;
     entity := entity r; scale := s; writable := writable r;
     write_only := write_only r; encoding := encoding r |}.

Definition with_flags (w wo : bool) (r : RegisterDefinition) : RegisterDefinition :=
  {| key := key r; address := address r; count := count r;
     register_type := register_type r; data_type := data_type r;
     entity := entity r; scale := scale r; writable := w;
     write_only := wo; encoding := encoding r |}.

Definition with_encoding (c : charset) (r : RegisterDefinition) : RegisterDefinition :=
  {| key := key r; address := address r; count := count r;
     register_type := register_type r; data_type := data_type r;
     entity := entity r; scale := scale r; writable := writable r;
     write_only := write_only r; encoding := Some c |}.

(** The float [0.001]: the double nearest to 1/1000. *)
Definition milli : Q := 1152921504606847 # 1152921504606846976.

Definition SENSOR_REGISTERS : list RegisterDefinition := [
  RD "charge_point_state" 1000 1 Holding Uint16 Sensor;
  RD "charging_state" 1001 1 Holding Uint16 Sensor;
  RD "equipment_state" 1002 1 Holding Uint16 Sensor;
  RD "cable_state" 1004 1 Holding Uint16 Sensor;
  RD "fault_code" 1006 1 Holding Uint16 Sensor;
  with_scale milli (RD "current_l1_a" 1008 1 Holding Uint16 Sensor);
  with_scale milli (RD "current_l2_a" 1010 1 Holding Uint16 Sensor);
  with_scale milli (RD "current_l3_a" 1012 1 Holding Uint16 Sensor);
  RD "active_power_total_w" 1020 2 Holding Uint32 Sensor;
  RD "active_power_l1_w" 1024 2 Holding Uint32 Sensor;
  RD "active_power_l2_w" 1028 2 Holding Uint32 Sensor;
  RD "active_power_l3_w" 1032 2 Holding Uint32 Sensor;
  with_scale milli (RD "energy_total_kwh" 1036 2 Holding Uint32 Sensor);
  RD "session_max_current_a" 1100 1 Holding Uint16 Sensor;
  RD "evse_min_current_a" 1102 1 Holding Uint16 Sensor;
  RD "evse_max_current_a" 1104 1 Holding Uint16 Sensor;
  RD "cable_max_current_a" 1106 1 Holding Uint16 Sensor;
  RD "ev_max_current_a" 1108 1 Holding Uint16 Sensor;
  RD "charged_energy_wh" 1502 1 Holding Uint16 Sensor;
  RD "session_start_time" 1504 2 Holding Uint32 Sensor;
  RD "session_duration_s" 1508 2 Holding Uint32 Sensor;
  RD "session_end_time" 1512 2 Holding Uint32 Sensor;
  with_encoding Ascii (RD "session_user_id" 1600 10 Holding StringT Sensor);
  RD "smart_vehicle_detected" 1620 2 Holding Uint32 Sensor
]%string.

Definition NUMBER_REGISTERS : list RegisterDefinition := [
  with_flags true false (RD "failsafe_current_a" 2000 1 Holding Uint16 NumberE);
  with_flags true false (RD "failsafe_timeout_s" 2002 1 Holding Uint16 NumberE);
  with_flags true true (RD "set_current_a" 5004 1 Holding Uint16 NumberE)
]%string.

Definition BUTTON_REGISTERS : list RegisterDefinition := [
  with_flags true true (RD "send_keepalive" 6000 1 Holding Uint16 ButtonE);
  with_flags true true (RD "start_session" 5006 1 Holding Uint16 ButtonE);
  with_flags true true (RD "stop_session" 5006 1 Holding Uint16 ButtonE)
]%string.

Definition CONTROL_REGISTERS : list RegisterDefinition := [
  with_flags true true (RD "session_command" 5006 1 Holding Uint16 Diagnostic)
]%string.

Definition KEEPALIVE_TRIGGER_VALUE : Z := 1.
Definition SESSION_COMMAND_START_VALUE : Z := 1.
Definition SESSION_COMMAND_STOP_VALUE : Z := 2.
Definition MAX_RETRY_ATTEMPTS : nat := 3.
(** [RETRY_BACKOFF_SECONDS = 1.0]. *)
Definition RETRY_BACKOFF_SECONDS : Q := 1%Q.

(** [all_registers(include_write_only)]. *)
Definition all_registers (include_write_only : bool) : list RegisterDefinition :=
  SENSOR_REGISTERS ++
  List.filter (fun r => include_write_only || negb (write_only r)) NUMBER_REGISTERS.

(** [get_register(key)]: first match over the four tables, else KeyError. *)
Definition get_register (k : string) : option RegisterDefinition :=
  List.find (fun r => String.eqb (key r) k)
    (SENSOR_REGISTERS ++ NUMBER_REGISTERS ++ BUTTON_REGISTERS ++ CONTROL_REGISTERS).

(* ------------------------------------------------------------------ *)
(** * Read-plan builder (hub.py, [_build_read_plan]) *)

Definition MAX_REGISTERS_PER_REQUEST : Z := 110.

Record ReadRequest := {
  rq_start_address : Z;
  rq_count : Z;
  rq_register_type : REGISTER_TYPE;
  rq_registers : list RegisterDefinition
}.

(** Python's [list.sort(key=...)] is stable: insertion sort that puts an
    element before the first element whose key is not smaller. *)
Fixpoint insert_by {A} (le : A -> A -> bool) (x : A) (l : list A) : list A :=
  match l with
  | [] => [x]
  | y :: l' => if le x y then x :: l else y :: insert_by le x l'
  end.

Definition sort_by {A} (le : A -> A -> bool) (l : list A) : list A :=
  fold_right (insert_by le) [] l.

Definition address_le (a b : RegisterDefinition) : bool := address a <=? address b.

(** Sort key [(register_type, start_address)]; as strings "holding" < "input". *)
Definition type_rank (t : REGISTER_TYPE) : Z :=
  match t with Holding => 0 | Input => 1 end.

Definition request_le (a b : ReadRequest) : bool :=
  (type_rank (rq_register_type a) <? type_rank (rq_register_type b)) ||
  ((type_rank (rq_register_type a) =? type_rank (rq_register_type b)) &&
   (rq_start_address a <=? rq_start_address b)).

Definition make_request (rt : REGISTER_TYPE) (s e : Z) (regs : list RegisterDefinition)
  : ReadRequest :=
  {| rq_start_address := s; rq_count := e - s; rq_register_type := rt;
     rq_registers := regs |}.

(** The greedy sweep over the address-sorted items of one register type;
    [cur] is [(current_start, current_end, current_regs)], [None] while
    [current_start is None]. *)
Fixpoint sweep (rt : REGISTER_TYPE) (items : list RegisterDefinition)
    (cur : option (Z * Z * list RegisterDefinition)) : list ReadRequest :=
  match items with
  | [] =>
      match cur with
      | Some (s, e, regs) => [make_request rt s e regs]
      | None => []
      end
  | d :: rest =>
      let reg_start := address d in
      let reg_end := address d + count d in
      match cur with
      | None => sweep rt rest (Some (reg_start, reg_end, [d]))
      | Some (s, e, regs) =>
          if (e <=? reg_start) || (MAX_REGISTERS_PER_REQUEST <? reg_end - s)
          then make_request rt s e regs :: sweep rt rest (Some (reg_start, reg_end, [d]))
          else sweep rt rest (Some (s, Z.max e reg_end, regs ++ [d]))
      end
  end.

Definition items_of (rt : REGISTER_TYPE) (defs : list RegisterDefinition)
  : list RegisterDefinition :=
  sort_by address_le (List.filter (fun d => bool_decide (register_type d = rt)) defs).

(** [_build_read_plan]: [by_type] iterates "input" then "holding". *)
Definition build_read_plan (defs : list RegisterDefinition) : list ReadRequest :=
  sort_by request_le
    (sweep Input (items_of Input defs) None ++ sweep Holding (items_of Holding defs) None).

(* ------------------------------------------------------------------ *)
(** * Python values, exceptions and the error monad *)

(** The exceptions the modelled code raises or lets through. *)
Inductive exn :=
  | WebastoModbusError (msg : string)
  | CancelledError
  | AttributeError (name : string)
  | ValueError (msg : string)
  | KeyError (k : string)
  | IndexError
  | OverflowError
  | UnicodeError
  | ZeroDivisionError
  | TypeError
  | AssertionError.

Inductive except (A : Type) := Ok (a : A) | Exc (e : exn).
Arguments Ok {A} a.
Arguments Exc {A} e.

#[global] Instance except_ret : MRet except := fun _ a => Ok a.
#[global] Instance except_bind : MBind except :=
  fun _ _ k m => match m with Ok a => k a | Exc e => Exc e end.

(* ------------------------------------------------------------------ *)
(** * Python floats: IEEE 754 binary64, round half to even *)

(** Python's [round()] on an exact rational: round half to even. *)
Definition py_round (q : Q) : Z :=
  let f := Qfloor q in
  match Qcompare (q - inject_Z f) (1 # 2) with
  | Lt => f
  | Gt => f + 1
  | Eq => if Z.even f then f else f + 1
  end.

(** [int(x)] of a finite float: truncation toward zero. *)
Definition py_int_of_Q (q : Q) : Z :=
  if Qle_bool 0 q then Qfloor q else - Qfloor (- q).

(** A Python [float]: a finite value [Fin q] ([q] its exact value in
    lowest terms, [+0.0] being [Fin 0]), [-0.0], an infinity or NaN. *)
Inductive pyfloat := Fin (q : Q) | NegZero | Inf (neg : bool) | NaN.

#[global] Instance pyfloat_eq_dec : EqDecision pyfloat.
Proof. solve_decision. Defined.

Definition Qlt_bool (a b : Q) : bool := negb (Qle_bool b a).

Definition pow2 (e : Z) : Q := Qpower 2 e.

(** [floor(log2 x)] for [x > 0]. *)
Definition Qlog2_floor (x : Q) : Z :=
  let k := Z.log2 (Qnum x) - Z.log2 (Zpos (Qden x)) in
  if Qle_bool (pow2 k) x then k else k - 1.

(** Exponent of the unit in the last place of a binary64 number of
    magnitude [a]: 53-bit significands, subnormals below [2^-1022]. *)
Definition ulp_exp (a : Q) : Z := Z.max (Qlog2_floor a - 52) (-1074).

(** [a > 0] rounded to a multiple of its unit in the last place, ties to
    an even multiple. *)
Definition round_ulp (a : Q) : Q :=
  let e := ulp_exp a in inject_Z (py_round (a / pow2 e)) * pow2 e.

(** The float nearest to [a >= 0], negated if [neg]; a result of
    [2^1024] or more is an infinity. *)
Definition binary64 (neg : bool) (a : Q) : pyfloat :=
  let r := if Qle_bool a 0 then 0%Q else round_ulp a in
  if Qle_bool (pow2 1024) r then Inf neg
  else if Qeq_bool r 0 then (if neg then NegZero else Fin 0)
  else Fin (Qred (if neg then - r else r)).

Definition fsign (f : pyfloat) : bool :=
  match f with Fin q => Qlt_bool q 0 | NegZero => true | Inf n => n | NaN => false end.

Definition fzero (f : pyfloat) : bool :=
  match f with Fin q => Qeq_bool q 0 | NegZero => true | _ => false end.

(** Magnitude of a finite float. *)
Definition fmag (f : pyfloat) : Q := match f with Fin q => Qabs q | _ => 0 end.

(** A float literal, or [float()] of the exact value [q]: correctly
    rounded. *)
Definition float_lit (q : Q) : pyfloat := binary64 (Qlt_bool q 0) (Qabs q).

(** [a * b] ([float_mul]). *)
Definition fmul (a b : pyfloat) : pyfloat :=
  let neg := xorb (fsign a) (fsign b) in
  match a, b with
  | NaN, _ | _, NaN => NaN
  | Inf _, _ | _, Inf _ => if fzero a || fzero b then NaN else Inf neg
  | _, _ => binary64 neg (fmag a * fmag b)
  end.

(** [a / b] ([float_div]): a zero divisor raises. *)
Definition fdiv (a b : pyfloat) : except pyfloat :=
  if fzero b then Exc ZeroDivisionError else
  let neg := xorb (fsign a) (fsign b) in
  Ok (match a, b with
      | NaN, _ | _, NaN | Inf _, Inf _ => NaN
      | Inf _, _ => Inf neg
      | _, Inf _ => if neg then NegZero else Fin 0
      | _, _ => binary64 neg (fmag a / fmag b)
      end).

(** [float(z)] of an int ([PyLong_AsDouble]): correctly rounded, and
    OverflowError when that is an infinity. *)
Definition float_of_int (z : Z) : except pyfloat :=
  match binary64 (z <? 0) (inject_Z (Z.abs z)) with
  | Inf _ => Exc OverflowError
  | f => Ok f
  end.

(** [round(x)] of a float ([float.__round__] without [ndigits]). *)
Definition float_round (f : pyfloat) : except Z :=
  match f with
  | Fin q => Ok (py_round q)
  | NegZero => Ok 0
  | Inf _ => Exc OverflowError
  | NaN => Exc (ValueError "cannot convert float NaN to integer")
  end.

(** [int(x)] of a float. *)
Definition float_int (f : pyfloat) : except Z :=
  match f with
  | Fin q => Ok (py_int_of_Q q)
  | NegZero => Ok 0
  | Inf _ => Exc OverflowError
  | NaN => Exc (ValueError "cannot convert float NaN to integer")
  end.



(** Values handed to the simulator ([Any]): Python's [None], [bool],
    [int], [float] and [str] (as its code points). *)
Inductive pyval := PNone | PBool (b : bool) | PInt (z : Z) | PFloat (f : pyfloat) | PStr (s : list Z).

(** Python truthiness. *)
Definition truthy (v : pyval) : bool :=
  match v with
  | PNone => false
  | PBool b => b
  | PInt z => negb (z =? 0)
  | PFloat f => negb (fzero f)
  | PStr s => negb (bool_decide (s = []))
  end.

(** Code points of an ASCII string literal. *)
Definition cps (s : string) : list Z :=
  map (fun c => Z.of_N (Ascii.N_of_ascii c)) (String.list_ascii_of_string s).

(** Attribute read [reg.<name>] on the slots dataclass.  The slots the
    code reads are returned; a name outside the modelled slots raises
    [AttributeError] (for names outside [RegisterDefinition_slots] this is
    exactly Python's behaviour). *)
Definition getattr (r : RegisterDefinition) (name : string) : except pyval :=
  match name with
  | "key" => Ok (PStr (cps (key r)))
  | "address" => Ok (PInt (address r))
  | "count" => Ok (PInt (count r))
  | "scale" => Ok (PFloat (Fin (scale r)))
  | "writable" => Ok (PBool (writable r))
  | "write_only" => Ok (PBool (write_only r))
  | _ => Exc (AttributeError name)
  end%string.

(** [all(f(x) for x in l)], short-circuiting on the first falsy value. *)
Fixpoint py_all {A} (f : A -> except pyval) (l : list A) : except bool :=
  match l with
  | [] => Ok true
  | x :: l' => v ← f x; if truthy v then py_all f l' else Ok false
  end.

(* ------------------------------------------------------------------ *)
(** * Codec: [_decode_register] (hub.py) and [_encode_value] (simulator.py) *)

(** [str.isspace] on a code point. *)
Definition py_isspace (c : Z) : bool :=
  ((9 <=? c) && (c <=? 13)) || ((28 <=? c) && (c <=? 32)) || (c =? 133) ||
  (c =? 160) || (c =? 5760) || ((8192 <=? c) && (c <=? 8202)) ||
  (c =? 8232) || (c =? 8233) || (c =? 8239) || (c =? 8287) || (c =? 12288).

Fixpoint lstrip_by (p : Z -> bool) (l : list Z) : list Z :=
  match l with
  | [] => []
  | c :: l' => if p c then lstrip_by p l' else l
  end.

Definition rstrip_by (p : Z -> bool) (l : list Z) : list Z :=
  rev (lstrip_by p (rev l)).

(** [str.strip()]. *)
Definition py_strip (l : list Z) : list Z :=
  rstrip_by py_isspace (lstrip_by py_isspace l).

(** [register.to_bytes(2, "big")] for each word; OverflowError outside
    [0, 0xFFFF]. *)
Fixpoint words_to_bytes (ws : list Z) : except (list Z) :=
  match ws with
  | [] => Ok []
  | w :: ws' =>
      if (0 <=? w) && (w <=? 0xFFFF) then
        rest ← words_to_bytes ws'; Ok (Z.shiftr w 8 :: Z.land w 0xFF :: rest)
      else Exc OverflowError
  end.

(** [int.from_bytes(padded[i:i+2], "big")] for [i] in [range(0, len, 2)]. *)
Fixpoint bytes_to_words (bs : list Z) : list Z :=
  match bs with
  | b0 :: b1 :: rest => (b0 * 256 + b1) :: bytes_to_words rest
  | [b0] => [b0]
  | [] => []
  end.

Definition is_cont (b : Z) : bool := (0x80 <=? b) && (b <=? 0xBF).

(** Allowed range of the second byte of a 3- or 4-byte UTF-8 sequence. *)
Definition second_ok (b0 b1 : Z) : bool :=
  if b0 =? 0xE0 then (0xA0 <=? b1) && (b1 <=? 0xBF)
  else if b0 =? 0xED then (0x80 <=? b1) && (b1 <=? 0x9F)
  else if b0 =? 0xF0 then (0x90 <=? b1) && (b1 <=? 0xBF)
  else if b0 =? 0xF4 then (0x80 <=? b1) && (b1 <=? 0x8F)
  else is_cont b1.

(** [bytes.decode("utf-8", errors="ignore")]: an invalid or truncated
    sequence is dropped; dropping its lead byte and then each of its
    continuation bytes (never valid as a lead) is the same. *)
Fixpoint utf8_decode (bs : list Z) : list Z :=
  match bs with
  | [] => []
  | b0 :: rest =>
      if b0 <? 0x80 then b0 :: utf8_decode rest
      else if (0xC2 <=? b0) && (b0 <=? 0xDF) then
        match rest with
        | b1 :: rest1 =>
            if is_cont b1 then ((b0 - 0xC0) * 64 + (b1 - 0x80)) :: utf8_decode rest1
            else utf8_decode rest
        | [] => []
        end
      else if (0xE0 <=? b0) && (b0 <=? 0xEF) then
        match rest with
        | b1 :: b2 :: rest2 =>
            if second_ok b0 b1 && is_cont b2 then
              ((b0 - 0xE0) * 4096 + (b1 - 0x80) * 64 + (b2 - 0x80)) :: utf8_decode rest2
            else utf8_decode rest
        | _ => utf8_decode rest
        end
      else if (0xF0 <=? b0) && (b0 <=? 0xF4) then
        match rest with
        | b1 :: b2 :: b3 :: rest3 =>
            if second_ok b0 b1 && is_cont b2 && is_cont b3 then
              ((b0 - 0xF0) * 262144 + (b1 - 0x80) * 4096 + (b2 - 0x80) * 64 + (b3 - 0x80))
                :: utf8_decode rest3
            else utf8_decode rest
        | _ => utf8_decode rest
        end
      else utf8_decode rest
  end.

(** [bytes.decode("ascii", errors="ignore")]. *)
Definition ascii_decode (bs : list Z) : list Z := List.filter (fun b => b <? 0x80) bs.

(** [str.encode("utf-8")] of one code point; lone surrogates raise. *)
Definition utf8_encode_char (c : Z) : except (list Z) :=
  if (0 <=? c) && (c <? 0x80) then Ok [c]
  else if (0x80 <=? c) && (c <? 0x800) then
    Ok [0xC0 + c / 64; 0x80 + c mod 64]
  else if (0xD800 <=? c) && (c <=? 0xDFFF) then Exc UnicodeError
  else if (0x800 <=? c) && (c <? 0x10000) then
    Ok [0xE0 + c / 4096; 0x80 + (c / 64) mod 64; 0x80 + c mod 64]
  else if (0x10000 <=? c) && (c <? 0x110000) then
    Ok [0xF0 + c / 262144; 0x80 + (c / 4096) mod 64; 0x80 + (c / 64) mod 64;
        0x80 + c mod 64]
  else Exc UnicodeError.

Definition ascii_encode_char (c : Z) : except (list Z) :=
  if (0 <=? c) && (c <? 0x80) then Ok [c] else Exc UnicodeError.

Fixpoint encode_text (enc : charset) (s : list Z) : except (list Z) :=
  match s with
  | [] => Ok []
  | c :: s' =>
      b ← (match enc with Ascii => ascii_encode_char c | Utf8 => utf8_encode_char c end);
      rest ← encode_text enc s'; Ok (b ++ rest)
  end.

Definition decode_text (enc : charset) (bs : list Z) : list Z :=
  match enc with Ascii => ascii_decode bs | Utf8 => utf8_decode bs end.

(** [definition.encoding or "utf-8"]. *)
Definition charset_of (d : RegisterDefinition) : charset :=
  match encoding d with Some c => c | None => Utf8 end.

(** Decoded values: [int], [float] or [str]. *)
Inductive dval := DInt (z : Z) | DFloat (f : pyfloat) | DStr (s : list Z).


(** [value = raw_value * definition.scale] (the int converted to a float
    first), then [int(value)] if [scale == 1]. *)
Definition scaled (d : RegisterDefinition) (raw : Z) : except dval :=
  x ← float_of_int raw;
  let value := fmul x (Fin (scale d)) in
  if Qeq_bool (scale d) 1 then z ← float_int value; Ok (DInt z)
  else Ok (DFloat value).

(** [_decode_register(definition, data)]. *)
Definition decode_register (d : RegisterDefinition) (data : list Z) : except dval :=
  match data_type d with
  | StringT =>
      bs ← words_to_bytes data;
      let text := decode_text (charset_of d) (rstrip_by (fun b => b =? 0) bs) in
      Ok (DStr (py_strip text))
  | Uint16 =>
      match data with w :: _ => scaled d w | [] => Exc IndexError end
  | Uint32 =>
      match data with
      | w0 :: w1 :: _ => scaled d (Z.shiftl w0 16 + w1)
      | _ => Exc IndexError
      end
  end.

(** [float(s)] of a str ([PyFloat_FromString]). *)

Definition is_digit (c : Z) : bool := (48 <=? c) && (c <=? 57).

(** [Py_ISSPACE]: ASCII whitespace. *)
Definition ascii_space (c : Z) : bool := ((9 <=? c) && (c <=? 13)) || (c =? 32).

(** First code points of the runs of ten decimal digits (category Nd,
    Unicode 15) outside ASCII. *)
Definition unicode_digit_starts : list Z :=
  [1632; 1776; 1984; 2406; 2534; 2662; 2790; 2918; 3046; 3174; 3302; 3430;
   3558; 3664; 3792; 3872; 4160; 4240; 6112; 6160; 6470; 6608; 6784; 6800;
   6992; 7088; 7232; 7248; 42528; 43216; 43264; 43472; 43504; 43600; 44016;
   65296; 66720; 68912; 69734; 69872; 69942; 70096; 70384; 70736; 70864;
   71248; 71360; 71472; 71904; 72016; 72784; 73040; 73120; 73552; 92768;
   92864; 93008; 120782; 120792; 120802; 120812; 120822; 123200; 123632;
   124144; 125264; 130032].

(** [Py_UNICODE_TODECIMAL] outside ASCII. *)
Definition unicode_decimal (c : Z) : option Z :=
  (fun s => c - s) <$> List.find (fun s => (s <=? c) && (c <? s + 10)) unicode_digit_starts.

(** [_PyUnicode_TransformDecimalAndSpaceToASCII]; [None] where a code
    point is turned into ['?'], on which the parse fails.  (An all-ASCII
    string is returned unchanged; it has no code point above 126 but DEL,
    which fails the parse either way.) *)
Fixpoint to_ascii_digits (s : list Z) : option (list Z) :=
  match s with
  | [] => Some []
  | c :: s' =>
      r ← to_ascii_digits s';
      if c <? 127 then Some (c :: r)
      else if py_isspace c then Some (32 :: r)
      else (fun dg => 48 + dg :: r) <$> unicode_decimal c
  end.

(** [_Py_string_to_number_with_underscores]: each ['_'] follows a digit
    and precedes one. *)
Fixpoint underscores_ok (prev : Z) (s : list Z) : bool :=
  match s with
  | [] => negb (prev =? 95)
  | c :: s' =>
      (if c =? 95 then is_digit prev else if prev =? 95 then is_digit c else true)
      && underscores_ok c s'
  end.

Fixpoint span_digits (s : list Z) : list Z * list Z :=
  match s with
  | c :: s' => if is_digit c then let '(ds, r) := span_digits s' in (c :: ds, r) else ([], s)
  | [] => ([], [])
  end.

Definition digits_value (ds : list Z) : Z :=
  fold_left (fun acc c => 10 * acc + (c - 48)) ds 0.

Definition strip_zeros (ds : list Z) : list Z := lstrip_by (fun c => c =? 48) ds.

Definition parse_sign (s : list Z) : bool * list Z :=
  match s with 45 :: r => (true, r) | 43 :: r => (false, r) | _ => (false, s) end.

(** The exponent part of [_Py_dg_strtod]: [e] or [E], a sign and at
    least one digit, or nothing is consumed; beyond nine significant
    digits or [MAX_ABS_EXP] the value is [MAX_ABS_EXP]. *)
Definition parse_exponent (s : list Z) : Z * list Z :=
  match s with
  | c :: r =>
      if (c =? 101) || (c =? 69) then
        let '(esign, r1) := parse_sign r in
        let '(ds, r2) := span_digits r1 in
        match ds with
        | [] => (0, s)
        | _ =>
            let sig := strip_zeros ds in
            let abs_exp :=
              if (9 <? Z.of_nat (length sig)) || (1100000000 <? digits_value sig)
              then 1100000000 else digits_value sig in
            (if esign then - abs_exp else abs_exp, r2)
        end
      else (0, s)
  | [] => (0, [])
  end.

(** [_Py_dg_strtod]: the correctly rounded float of the longest numeric
    prefix of [s] and the rest, [None] if none ([se = s00]). *)
Definition dg_strtod (s : list Z) : option (pyfloat * list Z) :=
  let '(neg, s1) := parse_sign s in
  let '(ip, s2) := span_digits s1 in
  let '(fp, s3) := match s2 with 46 :: r => span_digits r | _ => ([], s2) end in
  let ndigits :=
    match strip_zeros ip with [] => length (strip_zeros fp) | ip' => (length ip' + length fp)%nat end in
  let fraclen := length fp in
  if bool_decide (ip ++ fp = []) then None
  else if (1000000000 <? Z.of_nat ndigits) || (1000000000 <? Z.of_nat fraclen) then None
  else
    let '(e, rest) := parse_exponent s3 in
    Some (binary64 neg (inject_Z (digits_value (ip ++ fp)) * Qpower 10 (e - Z.of_nat fraclen)),
          rest).

Definition ascii_lower (c : Z) : Z := if (65 <=? c) && (c <=? 90) then c + 32 else c.

(** [case_insensitive_match]: the rest of [s] after a prefix matching [t]. *)
Fixpoint match_ci (s t : list Z) : option (list Z) :=
  match t with
  | [] => Some s
  | tc :: t' =>
      match s with
      | c :: s' => if ascii_lower c =? tc then match_ci s' t' else None
      | [] => None
      end
  end.

(** [_Py_parse_inf_or_nan]. *)
Definition parse_inf_or_nan (s : list Z) : option (pyfloat * list Z) :=
  let '(neg, s1) := parse_sign s in
  match match_ci s1 (cps "inf") with
  | Some r => Some (Inf neg, match match_ci r (cps "inity") with Some r' => r' | None => r end)
  | None => (fun r => (NaN, r)) <$> match_ci s1 (cps "nan")
  end.

Definition float_parse_error {A} : except A := Exc (ValueError "could not convert string to float").

(** [float_from_string_inner] and [_PyOS_ascii_strtod]. *)
Definition float_from_ascii (s : list Z) : except pyfloat :=
  match rstrip_by ascii_space (lstrip_by ascii_space s) with
  | [] => float_parse_error
  | s' =>
      match dg_strtod s' with
      | Some (f, []) => Ok f
      | Some _ => float_parse_error
      | None =>
          match parse_inf_or_nan s' with
          | Some (f, []) => Ok f
          | _ => float_parse_error
          end
      end
  end.

Definition float_of_str (s : list Z) : except pyfloat :=
  match to_ascii_digits s with
  | None => float_parse_error
  | Some a =>
      if existsb (fun c => c =? 95) a then
        if underscores_ok 0 a then float_from_ascii (List.filter (fun c => negb (c =? 95)) a)
        else float_parse_error
      else float_from_ascii a
  end.

(** [repr()] of a float ([float_repr_style = 'short']). *)

(** Decimal digits of [n >= 0]. *)
Definition dec_digits (n : Z) : list Z := cps (pretty n).

(** [floor(log10 a)] for [a > 0]. *)
Definition Qlog10_floor (a : Q) : Z :=
  let k := Z.of_nat (length (dec_digits (Qnum a))) - Z.of_nat (length (dec_digits (Zpos (Qden a)))) in
  if Qle_bool (Qpower 10 k) a then k else k - 1.

(** The shortest decimal [m * 10^x] reading back as the float [a > 0]
    ([_Py_dg_dtoa], mode 0): for [n = 1, 2, ...] significant digits the
    [n]-digit decimals just below and above [a] are tried, the nearer one
    (the even one on a tie) if both read back. *)
Fixpoint shortest_from (fuel : nat) (n : Z) (a : Q) (E : Z) : Z * Z :=
  match fuel with
  | O => (0, 0)
  | S fuel' =>
      let x := E - n + 1 in
      let u := Qpower 10 x in
      let lo := Qfloor (a / u)%Q in
      let hi := Qceiling (a / u)%Q in
      let ok m := bool_decide (binary64 false (inject_Z m * u)%Q = binary64 false a) in
      match ok lo, ok hi with
      | true, true =>
          let dlo := (a - inject_Z lo * u)%Q in
          let dhi := (inject_Z hi * u - a)%Q in
          (if Qlt_bool dlo dhi then lo else if Qlt_bool dhi dlo then hi
           else if Z.even lo then lo else hi, x)
      | true, false => (lo, x)
      | false, true => (hi, x)
      | false, false => shortest_from fuel' (n + 1) a E
      end
  end.

Fixpoint strip_trailing_zeros (fuel : nat) (m x : Z) : Z * Z :=
  match fuel with
  | O => (m, x)
  | S fuel' =>
      if (m mod 10 =? 0) && negb (m =? 0) then strip_trailing_zeros fuel' (m / 10) (x + 1)
      else (m, x)
  end.

(** Digits and decimal point position [decpt] of [a > 0]:
    [a = 0.d1d2...dn * 10^decpt] after rounding. *)
Definition repr_digits (a : Q) : list Z * Z :=
  let '(m0, x0) := shortest_from 17 1 a (Qlog10_floor a) in
  let '(m, x) := strip_trailing_zeros 17 m0 x0 in
  let ds := dec_digits m in
  (ds, Z.of_nat (length ds) + x).

Definition zeros (n : Z) : list Z := repeat 48 (Z.to_nat n).

(** [sprintf("%+.02d", x)]. *)
Definition exp_digits (x : Z) : list Z :=
  (if x <? 0 then 45 else 43) :: (if Z.abs x <? 10 then [48] else []) ++ dec_digits (Z.abs x).

(** [format_float_short] for [repr]: an exponent if [decpt <= -4] or
    [decpt > 16], and [".0"] on integral values. *)
Definition format_repr (ds : list Z) (decpt : Z) : list Z :=
  let n := Z.of_nat (length ds) in
  if (decpt <=? -4) || (16 <? decpt) then
    take 1 ds ++ (if 1 <? n then 46 :: drop 1 ds else []) ++ 101 :: exp_digits (decpt - 1)
  else if decpt <=? 0 then 48 :: 46 :: zeros (- decpt) ++ ds
  else if n <=? decpt then ds ++ zeros (decpt - n) ++ [46; 48]
  else take (Z.to_nat decpt) ds ++ 46 :: drop (Z.to_nat decpt) ds.

Definition float_repr (f : pyfloat) : list Z :=
  match f with
  | NaN => cps "nan"
  | Inf false => cps "inf"
  | Inf true => cps "-inf"
  | NegZero => cps "-0.0"
  | Fin q =>
      if Qeq_bool q 0 then cps "0.0"
      else
        let '(ds, decpt) := repr_digits (Qabs q) in
        (if Qlt_bool q 0 then [45] else []) ++ format_repr ds decpt
  end.

(** [str(z)] of an int: ValueError beyond 4300 digits
    ([sys.get_int_max_str_digits()] default). *)
Definition int_str (z : Z) : except (list Z) :=
  let ds := dec_digits (Z.abs z) in
  if 4300 <? Z.of_nat (length ds)
  then Exc (ValueError "Exceeds the limit (4300 digits) for integer string conversion")
  else Ok ((if z <? 0 then [45] else []) ++ ds).

(** [float(value)]. *)
Definition py_float (v : pyval) : except pyfloat :=
  match v with
  | PInt z => float_of_int z
  | PFloat f => Ok f
  | PBool b => Ok (Fin (if b then 1 else 0)%Q)
  | PStr s => float_of_str s
  | PNone => Exc TypeError
  end.

(** [str(value)]. *)
Definition py_str (v : pyval) : except (list Z) :=
  match v with
  | PStr s => Ok s
  | PInt z => int_str z
  | PBool b => Ok (cps (if b then "True" else "False"))
  | PFloat f => Ok (float_repr f)
  | PNone => Ok (cps "None")
  end.

(** [int(round(numeric / scale)) if scale != 1 else int(round(numeric))]. *)
Definition raw_of (d : RegisterDefinition) (numeric : pyfloat) : except Z :=
  if Qeq_bool (scale d) 1 then float_round numeric
  else q ← fdiv numeric (Fin (scale d)); float_round q.

(** [_encode_value(definition, value)]. *)
Definition encode_value (d : RegisterDefinition) (value : pyval) : except (list Z) :=
  match value with
  | PNone => Ok (repeat 0 (Z.to_nat (count d)))
  | _ =>
      match data_type d with
      | StringT =>
          text ← py_str value;
          let byte_length := count d * 2 in
          data ← encode_text (charset_of d) text;
          if byte_length <? Z.of_nat (length data) then
            Exc (ValueError "exceeds capacity")
          else
            let padded := data ++ repeat 0 (Z.to_nat byte_length - length data) in
            Ok (bytes_to_words padded)
      | Uint16 =>
          numeric ← py_float value;
          raw ← raw_of d numeric;
          if (0 <=? raw) && (raw <=? 0xFFFF) then Ok [raw]
          else Exc (ValueError "out of range for 16-bit register")
      | Uint32 =>
          numeric ← py_float value;
          raw ← raw_of d numeric;
          if (0 <=? raw) && (raw <=? 0xFFFFFFFF) then
            Ok [Z.land (Z.shiftr raw 16) 0xFFFF; Z.land raw 0xFFFF]
          else Exc (ValueError "out of range for 32-bit register")
      end
  end.

(* ------------------------------------------------------------------ *)
(** * Retry policy ([ModbusBridge._call_with_retry], hub.py) *)

(** Observable steps of the transport: the [k]-th call of [func()] (wire
    I/O), [async_close()], and [asyncio.sleep(d)]. *)
Inductive event := Attempt (k : nat) | Close | Sleep (d : Q).

Definition is_transport_failure (e : exn) : bool :=
  match e with WebastoModbusError _ => true | _ => false end.

Section Retry.
Context {St A : Type}.

(** [f k s] is the [k]-th call of [func()] from bridge state [s]: the
    state after it (e.g. the pruned read plan) and its outcome. *)
Variable f : nat -> St -> St * except A.

(** [for attempt in range(attempt, MAX_RETRY_ATTEMPTS + 1)], [fuel]
    iterations left; [last_err] is the local of the same name. *)
Fixpoint retry_loop (fuel attempt : nat) (s : St) (last_err : option exn)
  : St * list event * except A :=
  match fuel with
  | O =>
      (s, [], match last_err with Some e => Exc e | None => Exc AssertionError end)
  | S fuel' =>
      let '(s1, r) := f attempt s in
      match r with
      | Ok v => (s1, [Attempt attempt], Ok v)
      | Exc e =>
          if is_transport_failure e then
            if Nat.eqb attempt MAX_RETRY_ATTEMPTS then
              (s1, [Attempt attempt; Close], Exc e)
            else
              let '(s2, evs, r2) := retry_loop fuel' (S attempt) s1 (Some e) in
              (s2, Attempt attempt :: Close
                     :: Sleep (RETRY_BACKOFF_SECONDS * inject_Z (Z.of_nat attempt))%Q
                     :: evs, r2)
          else (s1, [Attempt attempt], Exc e)
      end
  end.

Definition call_with_retry (s : St) : St * list event * except A :=
  retry_loop MAX_RETRY_ATTEMPTS 1 s None.

(** The state after the attempts [1..n] (each run from the state the
    previous one left), and the outcome of the [k]-th attempt. *)
Fixpoint state_after (s : St) (n : nat) : St :=
  match n with O => s | S n' => fst (f n (state_after s n')) end.

Definition outcome (s : St) (k : nat) : except A := snd (f k (state_after s (pred k))).
End Retry.

(** The steps of the attempts [1..k-1] that failed at transport level:
    each is followed by closing the connection and sleeping
    [RETRY_BACKOFF_SECONDS * attempt]. *)
Definition backoff_prefix (k : nat) : list event :=
  concat (map (fun j => [Attempt j; Close; Sleep (RETRY_BACKOFF_SECONDS * inject_Z (Z.of_nat j))%Q])
              (seq 1 (pred k))).

(* ------------------------------------------------------------------ *)
(** * Transport: single write, bulk read (hub.py) *)

(** A Modbus response: registers, or an error response ([isError()]). *)
Inductive response := Registers (ws : list Z) | ErrorResponse.

(** The wallbox as seen from one call of the transport: whether
    [async_connect] succeeds, and the client's answer to each block read
    ([None] when the client raises a [ModbusException]).  A failed
    connection is one whose client reports [connected] false after
    [connect()]; a [connect()] that raises is not modelled. *)
Record Wire := {
  wire_connects : bool;
  wire_read : ReadRequest -> option response;
  wire_write : Z -> Z -> option response
}.

(** [_async_write_register_once], as the [k]-th attempt: [wire k] is the
    wallbox during that attempt. *)
Definition write_register_once (wire : nat -> Wire) (r : RegisterDefinition) (value : Z)
    (k : nat) (s : unit) : unit * except unit :=
  let w := wire k in
  if negb (wire_connects w) then (s, Exc (WebastoModbusError "Unable to connect"))
  else match wire_write w (address r) value with
       | None => (s, Exc (WebastoModbusError "modbus exception"))
       | Some ErrorResponse => (s, Exc (WebastoModbusError "write failed"))
       | Some (Registers _) => (s, Ok tt)
       end.

(** [async_write_register(register, value)]. *)
Definition async_write_register (wire : nat -> Wire) (r : RegisterDefinition) (value : Z)
  : list event * except unit :=
  if negb (writable r) then ([], Exc (ValueError "is not writable"))
  else let '(_, evs, res) := call_with_retry (write_register_once wire r value) tt in (evs, res).

(** Python's slice [l[i:j]]. *)
Definition py_norm (i n : Z) : Z := if i <? 0 then Z.max 0 (i + n) else Z.min i n.
Definition py_slice {A} (l : list A) (i j : Z) : list A :=
  let n := Z.of_nat (length l) in
  let a := py_norm i n in
  let b := py_norm j n in
  take (Z.to_nat (b - a)) (drop (Z.to_nat a) l).

(** The result dictionary of a bulk read. *)
Abbreviation data_map := (gmap string (option dval)).

(** Decoding a successful block: one key at a time. *)
Fixpoint decode_block (start : Z) (regs : list RegisterDefinition) (registers : list Z)
    (data : data_map) : except data_map :=
  match regs with
  | [] => Ok data
  | d :: regs' =>
      let offset := address d - start in
      let register_values := py_slice registers offset (offset + count d) in
      if negb (Z.of_nat (length register_values) =? count d) then
        decode_block start regs' registers (<[key d := None]> data)
      else
        v ← decode_register d register_values;
        decode_block start regs' registers (<[key d := Some v]> data)
  end.

(** The loop [for request in self._read_plan] of [_async_read_data_once]:
    it iterates the plan it started with; [plan] is the attribute
    [self._read_plan], which pruning replaces. *)
Fixpoint read_blocks (w : Wire) (todo : list ReadRequest) (plan : list ReadRequest)
    (data : data_map) : list ReadRequest * except data_map :=
  match todo with
  | [] => (plan, Ok data)
  | request :: todo' =>
      match wire_read w request with
      | None => (plan, Exc (WebastoModbusError "modbus exception"))
      | Some ErrorResponse =>
          match py_all (fun reg => getattr reg "optional") (rq_registers request) with
          | Exc e => (plan, Exc e)
          | Ok all_optional =>
              let plan' :=
                if all_optional then
                  List.filter (fun r => negb (rq_start_address r =? rq_start_address request)) plan
                else plan in
              let data' := foldl (fun m d => <[key d := None]> m) data (rq_registers request) in
              read_blocks w todo' plan' data'
          end
      | Some (Registers ws) =>
          match decode_block (rq_start_address request) (rq_registers request) ws data with
          | Exc e => (plan, Exc e)
          | Ok data' => read_blocks w todo' plan data'
          end
      end
  end.

(** [_async_read_data_once]. *)
Definition async_read_data_once (w : Wire) (plan : list ReadRequest)
  : list ReadRequest * except data_map :=
  if negb (wire_connects w) then (plan, Exc (WebastoModbusError "Unable to connect"))
  else read_blocks w plan plan ∅.

(** [async_read_data]: the retried bulk read, threading the read plan. *)
Definition async_read_data (wire : nat -> Wire) (plan : list ReadRequest)
  : list ReadRequest * list event * except data_map :=
  call_with_retry (fun k p => async_read_data_once (wire k) p) plan.

(** The plan cached by [ModbusBridge.__init__]. *)
Definition initial_read_plan : list ReadRequest := build_read_plan (all_registers false).

(* ------------------------------------------------------------------ *)
(** * Life-bit loop ([ModbusBridge._life_bit_loop], hub.py) *)

(** What the bridge observes in one cycle: the outcome of reading the
    timeout register, of writing 1 to the life bit, and of the polling
    phase. *)
Record LifeBitCycle := {
  timeout_read : except dval;
  life_bit_write : except unit;
  poll_result : except unit
}.

Inductive lb_event :=
  | ReadTimeoutRegister
  | WriteLifeBit (v : Z)
  | PollUntilCleared (window : Z)
  | ErrorSleep (seconds : Z).

(** One iteration of [while True]: [poll_timeout = 60], then the guarded
    refresh, the life-bit write and the polling.  Returns the value of
    the local [poll_timeout] afterwards and [Some e] when [e] escapes
    the loop (only cancellation does). *)
Definition life_bit_cycle (io : LifeBitCycle) : Z * list lb_event * option exn :=
  let poll_timeout := 60 in
  match timeout_read io with
  | Exc CancelledError => (poll_timeout, [ReadTimeoutRegister], Some CancelledError)
  | r =>
      let poll_timeout :=
        match r with
        | Ok (DInt z) => z
        | Ok (DFloat f) =>
            match float_int f with Ok z => z | Exc _ => poll_timeout end
        | _ => poll_timeout
        end in
      match life_bit_write io with
      | Exc CancelledError =>
          (poll_timeout, [ReadTimeoutRegister; WriteLifeBit 1], Some CancelledError)
      | Exc _ => (poll_timeout, [ReadTimeoutRegister; WriteLifeBit 1; ErrorSleep 5], None)
      | Ok _ =>
          match poll_result io with
          | Exc CancelledError =>
              (poll_timeout, [ReadTimeoutRegister; WriteLifeBit 1;
                              PollUntilCleared poll_timeout], Some CancelledError)
          | Exc _ =>
              (poll_timeout, [ReadTimeoutRegister; WriteLifeBit 1;
                              PollUntilCleared poll_timeout; ErrorSleep 5], None)
          | Ok _ =>
              (poll_timeout, [ReadTimeoutRegister; WriteLifeBit 1;
                              PollUntilCleared poll_timeout], None)
          end
      end
  end.

(** The loop over a finite prefix of its cycles; [poll_timeout] is the
    local variable carried from one iteration to the next ([None] before
    the first). *)
Fixpoint life_bit_loop (cycles : list LifeBitCycle) (poll_timeout : option Z)
  : list lb_event * option exn :=
  match cycles with
  | [] => ([], None)
  | io :: rest =>
      let '(pt, evs, stop) := life_bit_cycle io in
      match stop with
      | Some e => (evs, Some e)
      | None => let '(evs', r) := life_bit_loop rest (Some pt) in (evs ++ evs', r)
      end
  end.

(** The poll windows used, one per cycle that reached the polling phase. *)
Definition poll_windows (evs : list lb_event) : list Z :=
  omap (fun e => match e with PollUntilCleared w => Some w | _ => None end) evs.

(* ------------------------------------------------------------------ *)
(** * Virtual wallbox (virtual_wallbox/simulator.py) *)

(** A Python dict with insertion order: assigning an existing key keeps
    its position. *)
Abbreviation pydict K V := (list (K * V)).

Fixpoint dict_set {K V} `{EqDecision K} (k : K) (v : V) (d : pydict K V) : pydict K V :=
  match d with
  | [] => [(k, v)]
  | (k', v') :: d' => if decide (k = k') then (k, v) :: d' else (k', v') :: dict_set k v d'
  end.

Fixpoint dict_get {K V} `{EqDecision K} (k : K) (d : pydict K V) : option V :=
  match d with
  | [] => None
  | (k', v) :: d' => if decide (k = k') then Some v else dict_get k d'
  end.

(** A dict comprehension / successive assignments. *)
Definition dict_of {K V} `{EqDecision K} (l : list (K * V)) : pydict K V :=
  foldl (fun d kv => dict_set kv.1 kv.2 d) [] l.

Abbreviation actions_table :=
  (pydict string (pydict Z (pydict string pyval))).

Record VirtualWallboxState := {
  unit_id : Z;
  definitions_by_key : pydict string RegisterDefinition;
  definitions_by_address : pydict (REGISTER_TYPE * Z) RegisterDefinition;
  input_registers : gmap Z Z;
  holding_registers : gmap Z Z;
  write_actions : actions_table
}.

Definition set_stores (st : VirtualWallboxState) (inp hold : gmap Z Z) : VirtualWallboxState :=
  {| unit_id := unit_id st; definitions_by_key := definitions_by_key st;
     definitions_by_address := definitions_by_address st;
     input_registers := inp; holding_registers := hold;
     write_actions := write_actions st |}.

(** [target.setdefault(a, 0)]. *)
Definition setdefault0 (m : gmap Z Z) (a : Z) : gmap Z Z :=
  match m !! a with Some _ => m | None => <[a := 0]> m end.

(** [for offset in range(definition.count): target.setdefault(...)]. *)
Definition reset_one (stores : gmap Z Z * gmap Z Z) (d : RegisterDefinition)
  : gmap Z Z * gmap Z Z :=
  let addrs := map (fun o => address d + Z.of_nat o) (seq 0 (Z.to_nat (count d))) in
  match register_type d with
  | Input => (foldl setdefault0 stores.1 addrs, stores.2)
  | Holding => (stores.1, foldl setdefault0 stores.2 addrs)
  end.

(** [VirtualWallboxState.reset]. *)
Definition reset (st : VirtualWallboxState) : VirtualWallboxState :=
  let stores := foldl reset_one (∅, ∅) (map snd (definitions_by_key st)) in
  set_stores st stores.1 stores.2.

Definition store_of (st : VirtualWallboxState) (rt : REGISTER_TYPE) : gmap Z Z :=
  match rt with Input => input_registers st | Holding => holding_registers st end.

(** [VirtualWallboxState.read_block]: [store = self._input_registers if
    register_type == "input" else self._holding_registers]. *)
Definition read_block (st : VirtualWallboxState) (rt : REGISTER_TYPE) (start_address count : Z)
  : list Z :=
  let store := store_of st rt in
  map (fun o => default 0 (store !! (start_address + Z.of_nat o))) (seq 0 (Z.to_nat count)).

(** Writing [raw_values] at [definition.address + offset]. *)
Definition store_words (m : gmap Z Z) (a : Z) (ws : list Z) : gmap Z Z :=
  foldl (fun m' ow => <[a + Z.of_nat ow.1 := ow.2]> m') m (zip (seq 0 (length ws)) ws).

(** [_apply_value(key, value)]; the state stays as it was when it raises. *)
Definition apply_value (st : VirtualWallboxState) (k : string) (value : pyval)
  : VirtualWallboxState * option exn :=
  match dict_get k (definitions_by_key st) with
  | None => (st, Some (KeyError k))
  | Some d =>
      match encode_value d value with
      | Exc e => (st, Some e)
      | Ok raw_values =>
          match register_type d with
          | Input => (set_stores st (store_words (input_registers st) (address d) raw_values)
                                 (holding_registers st), None)
          | Holding => (set_stores st (input_registers st)
                                   (store_words (holding_registers st) (address d) raw_values), None)
          end
      end
  end.

(** [apply_values(updates)]: entries in order; an exception stops the loop
    with the earlier updates already stored. *)
Fixpoint apply_values (st : VirtualWallboxState) (updates : pydict string pyval)
  : VirtualWallboxState * option exn :=
  match updates with
  | [] => (st, None)
  | (k, v) :: rest =>
      match apply_value st k v with
      | (st', Some e) => (st', Some e)
      | (st', None) => apply_values st' rest
      end
  end.

(** [VirtualWallboxState.write_register(address, value)]. *)
Definition write_register (st : VirtualWallboxState) (addr value : Z)
  : VirtualWallboxState * option exn :=
  let definition := dict_get (Holding, addr) (definitions_by_address st) in
  let stored_value := Z.land value 0xFFFF in
  let st := set_stores st (input_registers st) (<[addr := stored_value]> (holding_registers st)) in
  match definition with
  | None => (st, None)
  | Some d =>
      match dict_get (key d) (write_actions st) with
      | None | Some [] => (st, None)
      | Some actions =>
          match dict_get stored_value actions with
          | None | Some [] => (st, None)
          | Some updates => apply_values st updates
          end
      end
  end.

Record Scenario := {
  sc_unit_id : Z;
  sc_values : pydict string pyval;
  sc_write_actions : actions_table
}.

(** [VirtualWallboxState.__init__] followed by [reset()] and, when
    [initial_values] is non-empty, [apply_values(initial_values)]. *)
Definition new_state (uid : Z) (initial_values : pydict string pyval) (wa : actions_table)
  : except VirtualWallboxState :=
  let by_key := dict_of (map (fun d => (key d, d))
                  (SENSOR_REGISTERS ++ NUMBER_REGISTERS ++ BUTTON_REGISTERS ++ CONTROL_REGISTERS)) in
  let by_addr := dict_of (map (fun d => ((register_type d, address d), d)) (map snd by_key)) in
  let st := reset {| unit_id := uid; definitions_by_key := by_key;
                     definitions_by_address := by_addr; input_registers := ∅;
                     holding_registers := ∅; write_actions := wa |} in
  match initial_values with
  | [] => Ok st
  | _ => match apply_values st initial_values with
         | (st', None) => Ok st'
         | (_, Some e) => Exc e
         end
  end.

(** [Scenario.create_state]. *)
Definition create_state (sc : Scenario) : except VirtualWallboxState :=
  new_state (sc_unit_id sc) (sc_values sc) (sc_write_actions sc).

Definition pint (z : Z) : pyval := PInt z.

(** [build_default_scenario(unit_id)]. *)
Definition build_default_scenario (uid : Z) : Scenario :=
  {| sc_unit_id := uid;
     sc_values := [
       ("serial_number", PStr (cps "SIM-WB-0001"));
       ("charge_point_id", PStr (cps "SIMULATOR"));
       ("charge_point_brand", PStr (cps "Webasto"));
       ("charge_point_model", PStr (cps "Next"));
       ("firmware_version", PStr (cps "1.0.0"));
       ("charge_point_state", pint 0); ("charging_state", pint 0);
       ("equipment_state", pint 1); ("cable_state", pint 2); ("fault_code", pint 0);
       ("current_l1_a", pint 0); ("current_l2_a", pint 0); ("current_l3_a", pint 0);
       ("voltage_l1_v", pint 230); ("voltage_l2_v", pint 230); ("voltage_l3_v", pint 230);
       ("active_power_total_w", pint 0); ("active_power_l1_w", pint 0);
       ("active_power_l2_w", pint 0); ("active_power_l3_w", pint 0);
       ("energy_total_kwh", PFloat (float_lit (1234567 # 1000)));
       ("session_max_current_a", pint 32); ("evse_min_current_a", pint 6);
       ("evse_max_current_a", pint 32); ("cable_max_current_a", pint 32);
       ("ev_max_current_a", pint 32); ("charged_energy_wh", pint 0);
       ("session_start_time", pint 0); ("session_duration_s", pint 0);
       ("session_end_time", pint 0); ("rated_power_w", pint 22000);
       ("phase_configuration", pint 1); ("charge_power_w", pint 0);
       ("failsafe_current_a", pint 16); ("failsafe_timeout_s", pint 60)]%string;
     sc_write_actions := [
       ("session_command",
        [(SESSION_COMMAND_START_VALUE,
          [("charging_state", pint 1); ("charge_point_state", pint 2);
           ("active_power_total_w", pint 7400); ("active_power_l1_w", pint 2466);
           ("active_power_l2_w", pint 2466); ("active_power_l3_w", pint 2466);
           ("charge_power_w", pint 7400)]);
         (SESSION_COMMAND_STOP_VALUE,
          [("charging_state", pint 0); ("charge_point_state", pint 0);
           ("active_power_total_w", pint 0); ("active_power_l1_w", pint 0);
           ("active_power_l2_w", pint 0); ("active_power_l3_w", pint 0);
           ("charge_power_w", pint 0)])])]%string |}.

(** A small store: 7 at holding address 1000, nothing else. *)
Definition sample_state : VirtualWallboxState :=
  {| unit_id := 255; definitions_by_key := []; definitions_by_address := [];
     input_registers := ∅; holding_registers := <[1000 := 7]> ∅; write_actions := [] |}.

(** A wallbox that accepts the connection and answers every request with
    an error response. *)
Definition error_wire (k : nat) : Wire :=
  {| wire_connects := true; wire_read := fun _ => Some ErrorResponse;
     wire_write := fun _ _ => Some ErrorResponse |}.

(** A life-bit cycle whose write and polling succeed. *)
Definition cycle_with_read (r : except dval) : LifeBitCycle :=
  {| timeout_read := r; life_bit_write := Ok tt; poll_result := Ok tt |}.

(** The definitions held by an open sweep window. *)
Definition cur_regs (cur : option (Z * Z * list RegisterDefinition)) : list RegisterDefinition :=
  match cur with Some (_, _, regs) => regs | None => [] end.

(** An open sweep window spans at most the request limit. *)
Definition cur_ok (cur : option (Z * Z * list RegisterDefinition)) : Prop :=
  match cur with Some (s, e, _) => e - s <= MAX_REGISTERS_PER_REQUEST | None => True end.

(** Keys of the control and button registers. *)
Definition control_keys : list string :=
  ["session_command"; "send_keepalive"; "start_session"; "stop_session"]%string.


(** Encoding followed by decoding, as the simulator and the bridge do it. *)
Definition roundtrip (d : RegisterDefinition) (v : pyval) : except dval :=
  ws ← encode_value d v; decode_register d ws.

(* ------------------------------------------------------------------ *)
(** * Single-register read ([async_read_register], hub.py) *)

(** The client call [read_*_registers(register.address,
    count=register.count)] of [_async_read_register_once], as a request
    the wire answers. *)
Definition single_request (r : RegisterDefinition) : ReadRequest :=
  {| rq_start_address := address r; rq_count := count r;
     rq_register_type := register_type r; rq_registers := [r] |}.

(** [_async_read_register_once], as the [k]-th attempt; an error of
    [_decode_register] escapes as it is. *)
Definition read_register_once (wire : nat -> Wire) (r : RegisterDefinition)
    (k : nat) (s : unit) : unit * except dval :=
  let w := wire k in
  if negb (wire_connects w) then (s, Exc (WebastoModbusError "Unable to connect"))
  else match wire_read w (single_request r) with
       | None => (s, Exc (WebastoModbusError "modbus exception"))
       | Some ErrorResponse => (s, Exc (WebastoModbusError "Modbus error reading"))
       | Some (Registers ws) => (s, decode_register r ws)
       end.

(** [async_read_register(register)]. *)
Definition async_read_register (wire : nat -> Wire) (r : RegisterDefinition)
  : list event * except dval :=
  let '(_, evs, res) := call_with_retry (read_register_once wire r) tt in (evs, res).

(* ------------------------------------------------------------------ *)
(** * Unit-id keyword negotiation ([ModbusBridge._invoke_with_unit], hub.py) *)

(** [needle in haystack] on strings. *)
Fixpoint str_contains (needle hay : string) : bool :=
  String.prefix needle hay ||
  match hay with EmptyString => false | String _ hay' => str_contains needle hay' end.

(** [_is_keyword_unsupported(err, keyword)] on [message = str(err)];
    [and] binds tighter than [or]. *)
Definition is_keyword_unsupported (message keyword : string) : bool :=
  let quoted := ("'" +:+ keyword +:+ "'")%string in
  (str_contains "unexpected keyword argument" message && str_contains quoted message) ||
  (str_contains "multiple values for argument" message && str_contains quoted message).

(** [_is_positional_only_error(err)] on [message = str(err)]. *)
Definition is_positional_only_error (message : string) : bool :=
  str_contains "positional argument" message && str_contains "given" message.

(** How one call passes the unit id: as keyword [kw=unit_id], or as one
    more positional argument. *)
Inductive unit_arg := UnitKeyword (kw : string) | UnitPositional.

(** What one call of the client coroutine does: return, raise a
    [TypeError] with its message, or raise another exception. *)
Inductive call_result (A : Type) :=
  | Returned (a : A)
  | RaisedTypeError (msg : string)
  | RaisedOther (e : exn).
Arguments Returned {A} a.
Arguments RaisedTypeError {A} msg.
Arguments RaisedOther {A} e.

(** The loop over [("device_id", "unit", "slave")]: the calls made, and
    [Some] result when the loop returned or raised. *)
Fixpoint try_keywords {A} (method : unit_arg -> call_result A) (base_kwargs : list string)
    (keywords : list string) : list unit_arg * option (except A) :=
  match keywords with
  | [] => ([], None)
  | kw :: rest =>
      if bool_decide (kw ∈ base_kwargs) then try_keywords method base_kwargs rest
      else
        match method (UnitKeyword kw) with
        | Returned a => ([UnitKeyword kw], Some (Ok a))
        | RaisedOther e => ([UnitKeyword kw], Some (Exc e))
        | RaisedTypeError m =>
            if is_keyword_unsupported m kw then
              let '(calls, r) := try_keywords method base_kwargs rest in
              (UnitKeyword kw :: calls, r)
            else ([UnitKeyword kw], Some (Exc (WebastoModbusError m)))
        end
  end.

Definition UNIT_KEYWORDS : list string := ["device_id"; "unit"; "slave"]%string.

Definition UNSUPPORTED_UNIT_PARAMETER : string :=
  "Modbus client does not support device_id/unit/slave parameter".

(** [_invoke_with_unit(method, *args, **kwargs)]; [base_kwargs] are the
    names of [kwargs].  Returns the calls made, in order, and the outcome. *)
Definition invoke_with_unit {A} (method : unit_arg -> call_result A) (base_kwargs : list string)
  : list unit_arg * except A :=
  let '(calls, r) := try_keywords method base_kwargs UNIT_KEYWORDS in
  match r with
  | Some res => (calls, res)
  | None =>
      match base_kwargs with
      | [] =>
          (calls ++ [UnitPositional],
           match method UnitPositional with
           | Returned a => Ok a
           | RaisedOther e => Exc e
           | RaisedTypeError m =>
               if is_positional_only_error m then Exc (WebastoModbusError UNSUPPORTED_UNIT_PARAMETER)
               else Exc (WebastoModbusError m)
           end)
      | _ :: _ => (calls, Exc (WebastoModbusError UNSUPPORTED_UNIT_PARAMETER))
      end
  end.

(** A coroutine [def name(self, <npos - 1 parameters>, *, unit)] such as
    the methods of the simulator's [FakeAsyncModbusTcpClient], with
    CPython's [TypeError] messages for a wrong way of passing the unit;
    [body] is what the call does once its arguments are bound. *)
Definition kwonly_unit_method {A} (qualname : string) (npos : N) (body : call_result A)
  : unit_arg -> call_result A :=
  fun u =>
    match u with
    | UnitKeyword kw =>
        if String.eqb kw "unit" then body
        else RaisedTypeError (qualname +:+ "() got an unexpected keyword argument '" +:+ kw +:+ "'")
    | UnitPositional =>
        RaisedTypeError (qualname +:+ "() takes " +:+ pretty npos +:+
                         " positional arguments but " +:+ pretty (npos + 1)%N +:+ " were given")
    end%string.

(* ------------------------------------------------------------------ *)
(** * Charging-current limits (const.py, __init__.py, number.py) *)

Definition VARIANT_MAX_CURRENT : pydict string Z := [("11kw", 16); ("22kw", 32)]%string.
Definition DEFAULT_VARIANT : string := "22kw".

(** [get_max_current_for_variant(variant)]; [None in VARIANT_MAX_CURRENT]
    is false. *)
Definition get_max_current_for_variant (variant : option string) : except Z :=
  match variant ≫= (fun v => dict_get v VARIANT_MAX_CURRENT) with
  | Some c => Ok c
  | None =>
      match dict_get DEFAULT_VARIANT VARIANT_MAX_CURRENT with
      | Some c => Ok c
      | None => Exc (KeyError DEFAULT_VARIANT)
      end
  end.

(** The fields [min_value] and [max_value] of the catalog entries
    (const.py); the three number registers are the only entries that set
    them. *)
Definition min_value (d : RegisterDefinition) : option Z :=
  match key d with
  | "failsafe_current_a" => Some 6
  | "failsafe_timeout_s" => Some 6
  | "set_current_a" => Some 0
  | _ => None
  end%string.

Definition max_value (d : RegisterDefinition) : option Z :=
  match key d with
  | "failsafe_current_a" => Some 32
  | "failsafe_timeout_s" => Some 120
  | "set_current_a" => Some 32
  | _ => None
  end%string.

(** Python's [x or y] on an optional number. *)
Definition py_or (x : option Z) (y : Z) : Z :=
  match x with Some z => if z =? 0 then y else z | None => y end.

(** Python's [min(a, b)] and [max(a, b)]: the first argument on ties. *)
Definition py_min (a b : Z) : Z := if b <? a then b else a.
Definition py_max (a b : Z) : Z := if a <? b then b else a.

(** [_clamp(value, minimum, maximum)] (__init__.py). *)
Definition clamp (value minimum maximum : Z) : Z := py_max minimum (py_min maximum value).

(** Exceptions a service handler raises. *)
Inductive service_exn :=
  | HomeAssistantError (cause : string)
  | ServiceRaised (e : exn).

(** A write through the bridge as the handlers do it: a
    [WebastoModbusError] becomes [HomeAssistantError]. *)
Definition service_write (wire : nat -> Wire) (r : RegisterDefinition) (value : Z)
  : list event * option service_exn :=
  let '(evs, res) := async_write_register wire r value in
  (evs, match res with
        | Ok _ => None
        | Exc (WebastoModbusError m) => Some (HomeAssistantError m)
        | Exc e => Some (ServiceRaised e)
        end).

(** [_async_service_set_current] for a runtime with [max_current] and
    [int(call.data["amps"]) = amps]: the bridge steps, the
    [SIGNAL_REGISTER_WRITTEN] payloads [(key, value)] sent, and the
    exception raised, if any. *)
Definition service_set_current (wire : nat -> Wire) (max_current amps : Z)
  : list event * list (string * Z) * option service_exn :=
  match get_register "set_current_a" with
  | None => ([], [], Some (ServiceRaised (KeyError "set_current_a")))
  | Some register =>
      let max_allowed := py_min max_current (py_or (max_value register) max_current) in
      let value := clamp amps (py_or (min_value register) 0) max_allowed in
      let '(evs, err) := service_write wire register value in
      match err with
      | Some e => (evs, [], Some e)
      | None => (evs, [(key register, value)], None)
      end
  end.

(** [_async_service_set_failsafe]; [timeout_s] is [None] when the call
    has no ["timeout_s"]. *)
Definition service_set_failsafe (wire : nat -> Wire) (max_current amps : Z) (timeout_s : option Z)
  : list event * list (string * Z) * option service_exn :=
  match get_register "failsafe_current_a" with
  | None => ([], [], Some (ServiceRaised (KeyError "failsafe_current_a")))
  | Some amps_register =>
      let max_allowed := py_min max_current (py_or (max_value amps_register) max_current) in
      let amps_value := clamp amps (py_or (min_value amps_register) 6) max_allowed in
      let '(evs1, err1) := service_write wire amps_register amps_value in
      match err1 with
      | Some e => (evs1, [], Some e)
      | None =>
          let sent1 := [(key amps_register, amps_value)] in
          match timeout_s with
          | None => (evs1, sent1, None)
          | Some timeout =>
              match get_register "failsafe_timeout_s" with
              | None => (evs1, sent1, Some (ServiceRaised (KeyError "failsafe_timeout_s")))
              | Some timeout_register =>
                  let timeout_value :=
                    clamp timeout (py_or (min_value timeout_register) 6)
                                  (py_or (max_value timeout_register) 120) in
                  let '(evs2, err2) := service_write wire timeout_register timeout_value in
                  match err2 with
                  | Some e => (evs1 ++ evs2, sent1, Some e)
                  | None => (evs1 ++ evs2, sent1 ++ [(key timeout_register, timeout_value)], None)
                  end
              end
          end
      end
  end.

(** [min]/[max] on the float bounds of a number entity. *)
Definition py_minQ (a b : Q) : Q := if Qle_bool a b then a else b.

(** [WebastoNumber.__init__]: the native minimum and maximum it sets
    ([None] where it sets none), for [variant_max_current]. *)
Definition number_bounds (d : RegisterDefinition) (variant_max_current : option Z)
  : option Q * option Q :=
  let native_min := inject_Z <$> min_value d in
  let native_max := inject_Z <$> max_value d in
  let native_max :=
    match variant_max_current with
    | Some vm =>
        if bool_decide (key d ∈ ["failsafe_current_a"; "set_current_a"]%string) then
          let current_max := default (inject_Z vm) native_max in
          Some (py_minQ current_max (inject_Z vm))
        else native_max
    | None => native_max
    end in
  (native_min, native_max).

(** The value [WebastoNumber.async_set_native_value(value)] writes. *)
Definition number_value (native_min native_max : option Q) (value : Q) : Z :=
  let int_value := py_round value in
  let int_value :=
    match native_min with Some m => py_max int_value (py_int_of_Q m) | None => int_value end in
  match native_max with Some m => py_min int_value (py_int_of_Q m) | None => int_value end.

(** [async_set_native_value] of the number entity of [d], created with
    [variant_max_current]: the bridge steps, the value written and the
    exception raised, if any. *)
Definition number_set_native_value (wire : nat -> Wire) (d : RegisterDefinition)
    (variant_max_current : option Z) (value : Q) : list event * Z * option service_exn :=
  let '(native_min, native_max) := number_bounds d variant_max_current in
  let int_value := number_value native_min native_max value in
  let '(evs, err) := service_write wire d int_value in
  (evs, int_value, err).

(* ------------------------------------------------------------------ *)
(** * Simulator registry ([VirtualWallboxRegistry], virtual_wallbox/simulator.py) *)

Section Registry.
Context {State : Type}.

(** [self._states]: [(host, port)] to a bucket [unit_id -> state]. *)
Definition registry := gmap (string * Z) (gmap Z State).

(** [register(host, port, unit_id, state)]; raises [ValueError] (and
    changes nothing) when the unit is already in the bucket. *)
Definition registry_register (reg : registry) (host : string) (port uid : Z) (st : State)
  : registry * option exn :=
  let bucket := default ∅ (reg !! (host, port)) in
  match bucket !! uid with
  | Some _ => (reg, Some (ValueError "Virtual wallbox already registered"))
  | None => (<[(host, port) := <[uid := st]> bucket]> reg, None)
  end.

(** [unregister(host, port, unit_id)]: the bucket is popped once empty. *)
Definition registry_unregister (reg : registry) (host : string) (port uid : Z) : registry :=
  match reg !! (host, port) with
  | None => reg
  | Some bucket =>
      if decide (bucket = ∅) then reg
      else
        let bucket' := delete uid bucket in
        if decide (bucket' = ∅) then delete (host, port) reg
        else <[(host, port) := bucket']> reg
  end.

(** [get(host, port, unit_id)]; [require] raises [FakeModbusException]
    exactly where this is [None]. *)
Definition registry_get (reg : registry) (host : string) (port uid : Z) : option State :=
  match reg !! (host, port) with
  | None => None
  | Some bucket => if decide (bucket = ∅) then None else bucket !! uid
  end.

(** [has_endpoint(host, port)]. *)
Definition has_endpoint (reg : registry) (host : string) (port : Z) : bool :=
  bool_decide (is_Some (reg !! (host, port))).

(** [register_virtual_wallbox(host=..., port=..., state=...)] around a
    body that runs on the registry while the context is open: register,
    run the body, and unregister in [finally].  The exception raised, if
    any, is the registration's or the body's. *)
Definition with_virtual_wallbox (reg : registry) (host : string) (port uid : Z) (st : State)
    (body : registry -> registry * option exn) : registry * option exn :=
  match registry_register reg host port uid st with
  | (reg1, Some e) => (reg1, Some e)
  | (reg1, None) =>
      let '(reg2, err) := body reg1 in
      (registry_unregister reg2 host port uid, err)
  end.

(** No bucket of the registry is empty. *)
Definition no_empty_bucket (reg : registry) : Prop := map_Forall (fun _ b => b <> ∅) reg.

(** A call on the registry: [register(host, port, unit_id, state)] or
    [unregister(host, port, unit_id)]; a [register] that raises
    [ValueError] leaves the registry as it was. *)
Inductive registry_op :=
  | RegisterOp (host : string) (port uid : Z) (st : State)
  | UnregisterOp (host : string) (port uid : Z).

Definition apply_registry_op (reg : registry) (op : registry_op) : registry :=
  match op with
  | RegisterOp h p u s => (registry_register reg h p u s).1
  | UnregisterOp h p u => registry_unregister reg h p u
  end.

(** The registry after a sequence of calls on a fresh
    [VirtualWallboxRegistry()]. *)
Definition run_registry (ops : list registry_op) : registry := foldl apply_registry_op ∅ ops.

End Registry.

(* ------------------------------------------------------------------ *)
(** * Well-formed definitions and simulator stores *)

(** A definition whose width fits its data type: [uint16] needs a word,
    [uint32] two. *)
Definition wf_def (d : RegisterDefinition) : Prop :=
  0 <= count d /\
  match data_type d with Uint16 => 1 <= count d | Uint32 => 2 <= count d | StringT => True end.

#[global] Instance wf_def_dec d : Decision (wf_def d).
Proof. unfold wf_def. destruct (data_type d); apply _. Defined.

(** Every word of both stores of the simulator is a 16-bit value. *)
Definition words_in_range (st : VirtualWallboxState) : Prop :=
  map_Forall (fun _ w => 0 <= w <= 0xFFFF) (input_registers st) /\
  map_Forall (fun _ w => 0 <= w <= 0xFFFF) (holding_registers st).

(** The wire of one attempt answers each block read from the store of the
    simulator state [st], as [FakeAsyncModbusTcpClient] does. *)
Definition reads_from (w : Wire) (st : VirtualWallboxState) : Prop :=
  wire_connects w = true /\
  forall rq, wire_read w rq =
    Some (Registers (read_block st (rq_register_type rq) (rq_start_address rq) (rq_count rq))).

(** Successive [write_register] calls on the simulator; an exception
    leaves the state as far as it got. *)
Definition write_all (st : VirtualWallboxState) (writes : list (Z * Z)) : VirtualWallboxState :=
  foldl (fun s av => fst (write_register s av.1 av.2)) st writes.

(* ------------------------------------------------------------------ *)
(** * Proof-side predicates, the simulator seen through the bridge, and
      sample inputs *)

(** Definitions ordered by start address. *)
Definition addr_rel (a b : RegisterDefinition) : Prop := address a <= address b.

(** An open sweep window [(s, e, regs)] spans each of its definitions,
    and the items still to sweep start at or after [s]. *)
Definition cur_cover (cur : option (Z * Z * list RegisterDefinition))
    (items : list RegisterDefinition) : Prop :=
  match cur with
  | Some (s, e, regs) =>
      (forall d, d ∈ regs -> s <= address d /\ address d + count d <= e) /\
      Forall (fun d => s <= address d) items
  | None => True
  end.

(** Every entry of a result dictionary is the decoding of its
    definition's words in the store [st]. *)
Definition sim_entries (st : VirtualWallboxState) (defs : list RegisterDefinition)
    (data : data_map) : Prop :=
  forall k x, data !! k = Some x -> exists d v, d ∈ defs /\ key d = k /\ x = Some v /\
    decode_register d (read_block st (register_type d) (address d) (count d)) = Ok v.

(** A well-formed definition of [defs] inside the block [start, start+cnt)
    of register type [rt]. *)
Definition in_block (defs : list RegisterDefinition) (rt : REGISTER_TYPE) (start cnt : Z)
    (d : RegisterDefinition) : Prop :=
  d ∈ defs /\ wf_def d /\ register_type d = rt /\
  start <= address d /\ address d + count d <= start + cnt.

(** A 16-bit word. *)
Definition in16 (w : Z) : Prop := 0 <= w <= 0xFFFF.

(** The simulator [st] behind [FakeAsyncModbusTcpClient]: the connection
    succeeds and a read request is answered with [state.read_block]
    (virtual_wallbox/simulator.py); writes are acknowledged. *)
Definition simulator_wire (st : VirtualWallboxState) (k : nat) : Wire :=
  {| wire_connects := true;
     wire_read := fun rq =>
       Some (Registers (read_block st (rq_register_type rq) (rq_start_address rq) (rq_count rq)));
     wire_write := fun _ _ => Some (Registers []) |}.

(** A life-bit cycle in which one of the awaited steps is cancelled. *)
Definition cycle_cancelled (io : LifeBitCycle) : Prop :=
  timeout_read io = Exc CancelledError \/ life_bit_write io = Exc CancelledError \/
  poll_result io = Exc CancelledError.

(** The values written to the life-bit register, in order. *)
Definition life_bit_writes (evs : list lb_event) : list Z :=
  omap (fun e => match e with WriteLifeBit v => Some v | _ => None end) evs.

(** [VirtualWallboxState.resolve_address(register_type, address)]. *)
Definition resolve_address (st : VirtualWallboxState) (rt : REGISTER_TYPE) (addr : Z) : Z :=
  if bool_decide (is_Some (dict_get (rt, addr) (definitions_by_address st))) then addr
  else if bool_decide (is_Some (dict_get (rt, addr + 1) (definitions_by_address st))) then addr + 1
  else addr.

(** [(register_type, address) in self._definitions_by_address]. *)
Definition address_defined (st : VirtualWallboxState) (rt : REGISTER_TYPE) (addr : Z) : Prop :=
  is_Some (dict_get (rt, addr) (definitions_by_address st)).

(** [Scenario()] with no values and no write actions. *)
Definition empty_scenario : Scenario :=
  {| sc_unit_id := 255; sc_values := []; sc_write_actions := [] |}.

(** The state [Scenario().create_state()] builds. *)
Definition fresh_state : VirtualWallboxState :=
  match create_state empty_scenario with Ok st => st | Exc _ => sample_state end.

(** A registry with one wallbox (unit 1) at 127.0.0.1:15020. *)
Definition wallbox_registry : @registry nat :=
  <[("127.0.0.1"%string, 15020) := <[1 := 5%nat]> ∅]> ∅.

(** A client method that takes the unit id only positionally. *)
Definition keyword_rejecting_method (u : unit_arg) : call_result Z :=
  match u with
  | UnitKeyword kw => RaisedTypeError ("write_register() got an unexpected keyword argument '" +:+ kw +:+ "'")
  | UnitPositional => Returned 1
  end%string.

(** A wallbox that answers every read with an empty register list. *)
Definition short_read_wire (k : nat) : Wire :=
  {| wire_connects := true; wire_read := fun _ => Some (Registers []);
     wire_write := fun _ _ => Some (Registers []) |}.

(* ================================================================== *)
(** * Theorems *)

(* ------------------------------------------------------------------ *)
(** ** Read plan *)

Lemma insert_by_perm {A} (le : A -> A -> bool) x l : insert_by le x l ≡ₚ x :: l.
Proof.
  induction l as [|y l IH]; simpl; [done|].
  destruct (le x y); [done|]. rewrite IH. constructor.
Qed.

Lemma sort_by_perm {A} (le : A -> A -> bool) l : sort_by le l ≡ₚ l.
Proof.
  induction l as [|x l IH]; simpl; [done|].
  unfold sort_by in *. simpl. rewrite insert_by_perm, IH. done.
Qed.

Lemma sweep_registers rt items cur :
  concat (map rq_registers (sweep rt items cur)) = cur_regs cur ++ items.
Proof.
  revert cur. induction items as [|d rest IH]; intros cur; simpl.
  - destruct cur as [[[s e] regs]|]; simpl; [by rewrite app_nil_r|done].
  - destruct cur as [[[s e] regs]|]; simpl.
    + destruct (_ || _); simpl; rewrite IH; simpl; [done|]. by rewrite <- app_assoc.
    + by rewrite IH.
Qed.

Lemma sweep_type rt items cur rq : rq ∈ sweep rt items cur -> rq_register_type rq = rt.
Proof.
  revert cur. induction items as [|d rest IH]; intros cur Hin; simpl in Hin.
  - destruct cur as [[[s e] regs]|]; [|by apply elem_of_nil in Hin].
    apply list_elem_of_singleton in Hin. by subst.
  - destruct cur as [[[s e] regs]|]; [|by eapply IH].
    destruct (_ || _).
    + apply elem_of_cons in Hin as [->|Hin]; [done|by eapply IH].
    + by eapply IH.
Qed.

Lemma sweep_count rt items cur :
  Forall (fun d => count d <= MAX_REGISTERS_PER_REQUEST) items -> cur_ok cur ->
  Forall (fun rq => rq_count rq <= MAX_REGISTERS_PER_REQUEST) (sweep rt items cur).
Proof.
  revert cur. induction items as [|d rest IH]; intros cur Hall Hcur; simpl.
  - destruct cur as [[[s e] regs]|]; [|constructor].
    constructor; [|constructor]. simpl in *. lia.
  - inversion Hall as [|? ? Hd Hrest]; subst.
    destruct cur as [[[s e] regs]|].
    + simpl in Hcur. destruct (_ || _) eqn:Hsplit.
      * constructor; [simpl; lia|]. apply IH; [done|simpl; lia].
      * apply orb_false_iff in Hsplit as [_ H2]. apply Z.ltb_ge in H2.
        apply IH; [done|simpl; lia].
    + apply IH; [done|simpl; lia].
Qed.

Lemma filter_type_partition (defs : list RegisterDefinition) :
  List.filter (fun d => bool_decide (register_type d = Input)) defs ++
  List.filter (fun d => bool_decide (register_type d = Holding)) defs ≡ₚ defs.
Proof.
  induction defs as [|d defs IH]; simpl; [done|].
  destruct (register_type d); simpl.
  - by rewrite IH.
  - rewrite <- Permutation_middle. by rewrite IH.
Qed.

Lemma concat_registers_exactly_one (plan : list ReadRequest) d :
  NoDup (concat (map rq_registers plan)) -> d ∈ concat (map rq_registers plan) ->
  length (List.filter (fun rq => bool_decide (d ∈ rq_registers rq)) plan) = 1%nat.
Proof.
  induction plan as [|rq plan IH]; simpl; intros Hnd Hin; [by apply elem_of_nil in Hin|].
  apply NoDup_app in Hnd as (Hnd1 & Hdisj & Hnd2).
  case_bool_decide as Hd; simpl.
  - f_equal.
    assert (Hout : d ∉ concat (map rq_registers plan)) by (by apply Hdisj).
    clear -Hout. induction plan as [|rq' plan IH']; simpl; [done|].
    simpl in Hout. rewrite elem_of_app in Hout.
    case_bool_decide; [tauto|]. apply IH'. tauto.
  - apply elem_of_app in Hin as [Hin|Hin]; [done|]. by apply IH.
Qed.

Lemma insert_by_sorted x l :
  StronglySorted addr_rel l -> StronglySorted addr_rel (insert_by address_le x l).
Proof.
  induction l as [|y l IH]; intros Hs; cbn [insert_by].
  - repeat constructor.
  - inversion Hs as [|? ? Hsl Hfy]; subst. unfold address_le.
    destruct (Z.leb_spec (address x) (address y)).
    + constructor; [done|]. constructor; [unfold addr_rel; lia|].
      eapply Forall_impl; [exact Hfy|]. unfold addr_rel; intros; lia.
    + constructor; [by apply IH|].
      eapply Forall_impl with (P := fun z => z = x \/ addr_rel y z).
      * apply Forall_forall. intros z Hz.
        rewrite insert_by_perm in Hz.
        apply elem_of_cons in Hz as [->|Hz]; [by left|right].
        rewrite Forall_forall in Hfy. by apply Hfy.
      * unfold addr_rel. intros z [->|Hz]; lia.
Qed.

Lemma sort_by_sorted l : StronglySorted addr_rel (sort_by address_le l).
Proof.
  induction l as [|x l IH]; [constructor|]. unfold sort_by in *. cbn [fold_right].
  by apply insert_by_sorted.
Qed.

Lemma sweep_cover rt items cur :
  StronglySorted addr_rel items -> cur_cover cur items ->
  forall rq d, rq ∈ sweep rt items cur -> d ∈ rq_registers rq ->
  rq_start_address rq <= address d /\ address d + count d <= rq_start_address rq + rq_count rq.
Proof.
  revert cur. induction items as [|x rest IH]; intros cur Hs Hc rq d Hrq Hd; cbn [sweep] in Hrq.
  - destruct cur as [[[s e] regs]|]; [|by apply elem_of_nil in Hrq].
    apply list_elem_of_singleton in Hrq as ->. cbn in *. destruct Hc as [Hc _].
    destruct (Hc d Hd). lia.
  - inversion Hs as [|? ? Hsr Hfx]; subst.
    assert (Hnew : cur_cover (Some (address x, address x + count x, [x])) rest).
    { split.
      - intros d' Hd'. apply list_elem_of_singleton in Hd' as ->. lia.
      - eapply Forall_impl; [exact Hfx|]. unfold addr_rel. intros; lia. }
    destruct cur as [[[s e] regs]|].
    + destruct Hc as [Hc Hfs]. inversion Hfs as [|? ? Hsx Hfs']; subst.
      destruct (_ || _).
      * apply elem_of_cons in Hrq as [->|Hrq].
        -- cbn in *. destruct (Hc d Hd). lia.
        -- by apply (IH _ Hsr Hnew rq d).
      * apply (IH (Some (s, Z.max e (address x + count x), regs ++ [x])) Hsr);
          [|done|done]. split.
        -- intros d' Hd'. apply elem_of_app in Hd' as [Hd'|Hd'].
           ++ destruct (Hc d' Hd'). lia.
           ++ apply list_elem_of_singleton in Hd' as ->. lia.
        -- done.
    + by apply (IH _ Hsr Hnew rq d).
Qed.

Lemma elem_concat_map (plan : list ReadRequest) rq d :
  rq ∈ plan -> d ∈ rq_registers rq -> d ∈ concat (map rq_registers plan).
Proof.
  intros Hrq Hd. apply list_elem_of_In, in_concat. exists (rq_registers rq).
  split; [apply in_map; by apply list_elem_of_In|by apply list_elem_of_In].
Qed.

Lemma elem_list_filter {A} (f : A -> bool) (l : list A) x :
  x ∈ List.filter f l -> x ∈ l /\ f x = true.
Proof. intros H. apply list_elem_of_In, filter_In in H as [H1 H2]. split; [by apply list_elem_of_In|done]. Qed.

Lemma read_plan_cover_gen (defs : list RegisterDefinition) rq d :
  rq ∈ build_read_plan defs -> d ∈ rq_registers rq ->
  d ∈ defs /\ register_type d = rq_register_type rq /\
  rq_start_address rq <= address d /\ address d + count d <= rq_start_address rq + rq_count rq.
Proof.
  intros Hrq Hd. unfold build_read_plan in Hrq.
  rewrite (sort_by_perm request_le _ ) in Hrq.
  assert (Hin : forall rt, rq ∈ sweep rt (items_of rt defs) None ->
    d ∈ defs /\ register_type d = rq_register_type rq /\
    rq_start_address rq <= address d /\ address d + count d <= rq_start_address rq + rq_count rq).
  { intros rt Hr. split_and!.
    - assert (Hc : d ∈ concat (map rq_registers (sweep rt (items_of rt defs) None))).
      { by apply (elem_concat_map _ rq). }
      rewrite sweep_registers in Hc. cbn in Hc. unfold items_of in Hc.
      rewrite (sort_by_perm address_le _) in Hc.
      apply elem_list_filter in Hc. tauto.
    - rewrite (sweep_type _ _ _ _ Hr).
      assert (Hc : d ∈ concat (map rq_registers (sweep rt (items_of rt defs) None))).
      { by apply (elem_concat_map _ rq). }
      rewrite sweep_registers in Hc. cbn in Hc. unfold items_of in Hc.
      rewrite (sort_by_perm address_le _) in Hc.
      apply elem_list_filter in Hc as [_ Ht]. by apply bool_decide_eq_true in Ht.
    - eapply (sweep_cover rt _ None); [apply sort_by_sorted|done|exact Hr|exact Hd].
    - eapply (sweep_cover rt _ None); [apply sort_by_sorted|done|exact Hr|exact Hd]. }
  apply elem_of_app in Hrq as [Hr|Hr]; eauto.
Qed.

(** C3 (amended): for every catalog, the definitions of the read plan
    are a permutation of the catalog, so for a catalog without repeated
    entries each definition lies in exactly one request; every request
    holds definitions of its own register type only, so input and
    holding are never mixed; when every definition spans at most 110
    words, no request exceeds 110 words; and a definition wider than 110
    words always lies in a request wider than 110 words. *)
Theorem read_plan_partition (defs : list RegisterDefinition) :
  concat (map rq_registers (build_read_plan defs)) ≡ₚ defs /\
  (NoDup defs -> forall d, d ∈ defs ->
     length (List.filter (fun rq => bool_decide (d ∈ rq_registers rq)) (build_read_plan defs))
       = 1%nat) /\
  (forall rq, rq ∈ build_read_plan defs ->
     Forall (fun d => register_type d = rq_register_type rq) (rq_registers rq)) /\
  (Forall (fun d => count d <= MAX_REGISTERS_PER_REQUEST) defs ->
   forall rq, rq ∈ build_read_plan defs -> rq_count rq <= MAX_REGISTERS_PER_REQUEST) /\
  (forall d, d ∈ defs -> MAX_REGISTERS_PER_REQUEST < count d ->
   exists rq, rq ∈ build_read_plan defs /\ d ∈ rq_registers rq /\
              MAX_REGISTERS_PER_REQUEST < rq_count rq).
Proof.
  assert (Hplan : build_read_plan defs ≡ₚ
                  sweep Input (items_of Input defs) None ++ sweep Holding (items_of Holding defs) None)
    by apply sort_by_perm.
  assert (Hperm : concat (map rq_registers (build_read_plan defs)) ≡ₚ defs).
  { rewrite Hplan, map_app, concat_app, !sweep_registers. simpl.
    unfold items_of. rewrite !sort_by_perm. apply filter_type_partition. }
  split; [done|]. split; [|split; [|split]].
  - intros Hnd d Hd. apply concat_registers_exactly_one.
    + by rewrite Hperm.
    + by rewrite Hperm.
  - intros rq Hrq. apply Forall_forall. intros d Hd.
    destruct (read_plan_cover_gen defs rq d Hrq Hd) as (_ & Ht & _). exact Ht.
  - intros Hcount rq Hrq. rewrite Hplan in Hrq.
    assert (Hitems : forall rt, Forall (fun d => count d <= MAX_REGISTERS_PER_REQUEST)
                                       (items_of rt defs)).
    { intros rt. unfold items_of. eapply Permutation_Forall; [symmetry; apply sort_by_perm|].
      apply Forall_forall. intros d Hd. apply list_elem_of_In, filter_In in Hd as [Hd _].
      apply list_elem_of_In in Hd. by eapply Forall_forall in Hcount. }
    apply elem_of_app in Hrq as [Hrq|Hrq].
    + pose proof (sweep_count Input (items_of Input defs) None (Hitems Input) I) as Hs.
      rewrite Forall_forall in Hs. by apply Hs.
    + pose proof (sweep_count Holding (items_of Holding defs) None (Hitems Holding) I) as Hs.
      rewrite Forall_forall in Hs. by apply Hs.
  - intros d Hd Hbig.
    assert (Hin : d ∈ concat (map rq_registers (build_read_plan defs))) by (by rewrite Hperm).
    apply list_elem_of_In, in_concat in Hin as (l & Hl & Hdl).
    apply in_map_iff in Hl as (rq & <- & Hrq).
    apply list_elem_of_In in Hrq, Hdl.
    exists rq. split; [done|]. split; [done|].
    destruct (read_plan_cover_gen defs rq d Hrq Hdl) as (_ & _ & H1 & H2). lia.
Qed.

(** Witness: the catalog the bridge reads, whose definitions all fit in
    one request, and a catalog with a 111-word definition. *)
Lemma read_plan_partition_witness :
  Forall (fun d => count d <= MAX_REGISTERS_PER_REQUEST) (all_registers false) /\
  (forall rq, rq ∈ build_read_plan (all_registers false) ->
     rq_count rq <= MAX_REGISTERS_PER_REQUEST) /\
  RD "long_text" 0 111 Holding StringT Sensor ∈ [RD "long_text" 0 111 Holding StringT Sensor] /\
  MAX_REGISTERS_PER_REQUEST < count (RD "long_text" 0 111 Holding StringT Sensor) /\
  exists rq, rq ∈ build_read_plan [RD "long_text" 0 111 Holding StringT Sensor] /\
    RD "long_text" 0 111 Holding StringT Sensor ∈ rq_registers rq /\
    MAX_REGISTERS_PER_REQUEST < rq_count rq.
Proof.
  assert (H : Forall (fun d => count d <= MAX_REGISTERS_PER_REQUEST) (all_registers false))
    by (eapply bool_decide_unpack; vm_compute; exact I).
  assert (Hm : RD "long_text" 0 111 Holding StringT Sensor ∈ [RD "long_text" 0 111 Holding StringT Sensor])
    by apply list_elem_of_singleton, eq_refl.
  assert (Hb : MAX_REGISTERS_PER_REQUEST < count (RD "long_text" 0 111 Holding StringT Sensor))
    by (vm_compute; reflexivity).
  split; [exact H|]. split; [exact (proj1 (proj2 (proj2 (proj2 (read_plan_partition (all_registers false))))) H)|].
  split; [exact Hm|]. split; [exact Hb|].
  exact (proj2 (proj2 (proj2 (proj2 (read_plan_partition [RD "long_text" 0 111 Holding StringT Sensor]))))
           _ Hm Hb).
Defined.

(** C3 (counterexample): a single definition of 111 words forms a request
    of 111 words, above the 110-word maximum; and a 111-word definition
    listed twice lands in two requests. *)
Lemma read_plan_oversized_counterexample :
  build_read_plan [RD "long_text" 0 111 Holding StringT Sensor] =
    [make_request Holding 0 111 [RD "long_text" 0 111 Holding StringT Sensor]] /\
  MAX_REGISTERS_PER_REQUEST < rq_count (make_request Holding 0 111
                                         [RD "long_text" 0 111 Holding StringT Sensor]) /\
  build_read_plan [RD "long_text" 0 111 Holding StringT Sensor;
                   RD "long_text" 0 111 Holding StringT Sensor] =
    [make_request Holding 0 111 [RD "long_text" 0 111 Holding StringT Sensor];
     make_request Holding 0 111 [RD "long_text" 0 111 Holding StringT Sensor]].
Proof. split; [reflexivity|split; [vm_compute; reflexivity|reflexivity]]. Qed.

(** C2 (code bug): two contiguous registers of the same type whose merged
    span (2 words) is far below 110 are not merged: the split test
    [reg_start >= current_end] fires when the next definition starts
    exactly at the end of the current block.  On the real catalog every
    request of the cached plan holds a single definition. *)
Theorem read_plan_contiguous_not_merged :
  build_read_plan [RD "charge_point_state" 1000 1 Holding Uint16 Sensor;
                   RD "charging_state" 1001 1 Holding Uint16 Sensor] =
    [make_request Holding 1000 1001 [RD "charge_point_state" 1000 1 Holding Uint16 Sensor];
     make_request Holding 1001 1002 [RD "charging_state" 1001 1 Holding Uint16 Sensor]] /\
  length initial_read_plan = 26%nat /\
  Forall (fun rq => length (rq_registers rq) = 1%nat) initial_read_plan.
Proof.
  split; [reflexivity|]. split; [vm_compute; reflexivity|].
  vm_compute. repeat constructor.
Qed.

(* ------------------------------------------------------------------ *)
(** ** Catalog *)

(** C10: [all_registers] returns the sensor registers followed by the
    number registers (only the non-write-only ones when
    [include_write_only] is false) and never a button or control
    register; the plan cached by the bridge holds none of the
    session_command, send_keepalive, start_session and stop_session
    definitions and no request of it spans address 5006 or 6000. *)
Theorem all_registers_no_controls :
  all_registers true = SENSOR_REGISTERS ++ NUMBER_REGISTERS /\
  all_registers false =
    SENSOR_REGISTERS ++ List.filter (fun r => negb (write_only r)) NUMBER_REGISTERS /\
  (forall b r, r ∈ all_registers b -> (r ∉ BUTTON_REGISTERS) /\ (r ∉ CONTROL_REGISTERS)) /\
  Forall (fun rq => Forall (fun d => key d ∉ control_keys) (rq_registers rq)) initial_read_plan /\
  Forall (fun rq => ~ (rq_start_address rq <= 5006 < rq_start_address rq + rq_count rq) /\
                    ~ (rq_start_address rq <= 6000 < rq_start_address rq + rq_count rq))
         initial_read_plan.
Proof.
  split; [reflexivity|]. split; [reflexivity|]. split; [|split].
  - intros b r Hr.
    assert (Hall : Forall (fun r => (r ∉ BUTTON_REGISTERS) /\ (r ∉ CONTROL_REGISTERS))
                          (all_registers b)).
    { destruct b; eapply bool_decide_unpack; vm_compute; exact I. }
    rewrite Forall_forall in Hall. by apply Hall.
  - eapply bool_decide_unpack. vm_compute. exact I.
  - eapply bool_decide_unpack. vm_compute. exact I.
Qed.

(* ------------------------------------------------------------------ *)
(** ** Virtual wallbox store *)

Lemma setdefault0_zero (m : gmap Z Z) a :
  map_Forall (fun _ v => v = 0) m -> map_Forall (fun _ v => v = 0) (setdefault0 m a).
Proof.
  intros Hm. unfold setdefault0. destruct (m !! a); [done|].
  by apply map_Forall_insert_2.
Qed.

Lemma foldl_setdefault0_zero (addrs : list Z) (m : gmap Z Z) :
  map_Forall (fun _ v => v = 0) m ->
  map_Forall (fun _ v => v = 0) (foldl setdefault0 m addrs).
Proof.
  revert m. induction addrs as [|a addrs IH]; intros m Hm; simpl; [done|].
  apply IH. by apply setdefault0_zero.
Qed.

Lemma reset_stores_zero (defs : list RegisterDefinition) (stores : gmap Z Z * gmap Z Z) :
  map_Forall (fun _ v => v = 0) stores.1 -> map_Forall (fun _ v => v = 0) stores.2 ->
  map_Forall (fun _ v => v = 0) (foldl reset_one stores defs).1 /\
  map_Forall (fun _ v => v = 0) (foldl reset_one stores defs).2.
Proof.
  revert stores. induction defs as [|d defs IH]; intros stores H1 H2; simpl; [done|].
  apply IH; unfold reset_one; destruct (register_type d); simpl;
    try done; by apply foldl_setdefault0_zero.
Qed.

Lemma reset_store_zero st rt a v : store_of (reset st) rt !! a = Some v -> v = 0.
Proof.
  intros Hv.
  destruct (reset_stores_zero (map snd (definitions_by_key st)) (∅, ∅)) as [H1 H2];
    [apply map_Forall_empty|apply map_Forall_empty|].
  destruct rt; simpl in Hv; [by eapply H1|by eapply H2].
Qed.

Lemma lookup_map_list {A B} (f : A -> B) (l : list A) i : map f l !! i = f <$> l !! i.
Proof. revert i. induction l as [|x l IH]; intros [|i]; simpl; auto. Qed.

(** C8: [read_block] returns exactly [count] words for a nonnegative
    count, word [i] being the stored value at [start_address + i] or 0
    when the store has none (the model is a total function: it never
    raises); after [reset] every word read is 0. *)
Theorem read_block_exact_length st rt start_address cnt (Hc : 0 <= cnt) :
  Z.of_nat (length (read_block st rt start_address cnt)) = cnt /\
  (forall i, (i < Z.to_nat cnt)%nat ->
     read_block st rt start_address cnt !! i =
       Some (default 0 (store_of st rt !! (start_address + Z.of_nat i)))) /\
  Forall (fun w => w = 0) (read_block (reset st) rt start_address cnt).
Proof.
  unfold read_block. split; [|split].
  - rewrite length_map, length_seq. lia.
  - intros i Hi. rewrite lookup_map_list, lookup_seq_lt by done. reflexivity.
  - apply Forall_forall. intros w Hw. apply list_elem_of_In, in_map_iff in Hw as (o & <- & _).
    destruct (store_of (reset st) rt !! (start_address + Z.of_nat o)) as [v|] eqn:E;
      simpl; [by eapply reset_store_zero|done].
Qed.

(** Witness: a read of 3 words at 1000 from a store holding 7 at 1000. *)
Lemma read_block_exact_length_witness :
  (0 <= 3) /\
  Z.of_nat (length (read_block sample_state Holding 1000 3)) = 3 /\
  (forall i, (i < Z.to_nat 3)%nat ->
     read_block sample_state Holding 1000 3 !! i =
       Some (default 0 (store_of sample_state Holding !! (1000 + Z.of_nat i)))) /\
  Forall (fun w => w = 0) (read_block (reset sample_state) Holding 1000 3).
Proof.
  split; [lia|]. apply (read_block_exact_length sample_state Holding 1000 3). lia.
Defined.

(* ------------------------------------------------------------------ *)
(** ** Retry policy and writes *)

(** C5: every retried operation makes [k] attempts for some
    [1 <= k <= 3]; the attempts before the [k]-th all failed at transport
    level ([WebastoModbusError]) and each was followed by closing the
    connection and sleeping [RETRY_BACKOFF_SECONDS * attempt]; the [k]-th
    attempt's outcome is returned unchanged (a value, or its exception),
    followed by a close when it is a transport failure, which can only
    happen at the final attempt 3 — any other exception, cancellation
    included, is propagated at once, with no close, sleep or further
    attempt. *)
Theorem call_with_retry_policy {St A} (f : nat -> St -> St * except A) (s : St) :
  exists k, (1 <= k <= MAX_RETRY_ATTEMPTS)%nat /\
    (forall j, (1 <= j < k)%nat -> exists m, outcome f s j = Exc (WebastoModbusError m)) /\
    (forall e, outcome f s k = Exc e -> is_transport_failure e = true ->
               k = MAX_RETRY_ATTEMPTS) /\
    call_with_retry f s =
      (state_after f s k,
       backoff_prefix k ++ Attempt k ::
         match outcome f s k with
         | Exc e => if is_transport_failure e then [Close] else []
         | Ok _ => []
         end,
       outcome f s k).
Proof.
  unfold call_with_retry, outcome, MAX_RETRY_ATTEMPTS. cbn [retry_loop].
  destruct (f 1%nat s) as [s1 [v1|e1]] eqn:E1.
  { exists 1%nat. cbn. rewrite E1. split; [lia|]. split; [intros; lia|].
    split; [discriminate|reflexivity]. }
  destruct (is_transport_failure e1) eqn:T1; cycle 1.
  { exists 1%nat. cbn. rewrite E1. split; [lia|]. split; [intros; lia|].
    split; [intros e [= <-]; congruence|]. cbn. rewrite T1. reflexivity. }
  cbn. destruct (f 2%nat s1) as [s2 [v2|e2]] eqn:E2.
  { exists 2%nat. cbn. rewrite E1; cbn. rewrite E2. split; [lia|]. split.
    - intros j Hj. assert (j = 1%nat) as -> by lia. cbn. rewrite E1.
      destruct e1; try discriminate. eauto.
    - split; [discriminate|reflexivity]. }
  destruct (is_transport_failure e2) eqn:T2; cycle 1.
  { exists 2%nat. cbn. rewrite E1; cbn. rewrite E2. split; [lia|]. split.
    - intros j Hj. assert (j = 1%nat) as -> by lia. cbn. rewrite E1.
      destruct e1; try discriminate. eauto.
    - split; [intros e [= <-]; congruence|]. cbn. rewrite T2. reflexivity. }
  cbn. destruct (f 3%nat s2) as [s3 r3] eqn:E3.
  exists 3%nat. cbn. rewrite E1; cbn. rewrite E2; cbn. rewrite E3. split; [lia|]. split.
  - intros j Hj. assert (j = 1%nat \/ j = 2%nat) as [-> | ->] by lia; cbn.
    + rewrite E1. destruct e1; try discriminate. eauto.
    + rewrite E1; cbn. rewrite E2. destruct e2; try discriminate. eauto.
  - split; [done|]. destruct r3 as [v3|e3]; cbn; [reflexivity|].
    destruct (is_transport_failure e3); reflexivity.
Qed.

(** C7: writing a definition that is not writable raises [ValueError]
    before any attempt: no wire I/O, no close, no sleep, no retry; a
    writable definition is written through the retry policy. *)
Theorem async_write_register_gate (wire : nat -> Wire) r value :
  (writable r = false ->
   async_write_register wire r value = ([], Exc (ValueError "is not writable"))) /\
  (writable r = true ->
   async_write_register wire r value =
     let '(_, evs, res) := call_with_retry (write_register_once wire r value) tt in (evs, res)).
Proof.
  unfold async_write_register. split; intros Hw; rewrite Hw; reflexivity.
Qed.

(** Witness: [charging_state] (read-only) and [failsafe_current_a]
    (writable) against a wallbox that rejects every request. *)
Lemma async_write_register_gate_witness :
  writable (RD "charging_state" 1001 1 Holding Uint16 Sensor) = false /\
  writable (with_flags true false (RD "failsafe_current_a" 2000 1 Holding Uint16 NumberE)) = true /\
  async_write_register error_wire (RD "charging_state" 1001 1 Holding Uint16 Sensor) 7 =
    ([], Exc (ValueError "is not writable")) /\
  async_write_register error_wire
      (with_flags true false (RD "failsafe_current_a" 2000 1 Holding Uint16 NumberE)) 16 =
    (let '(_, evs, res) :=
       call_with_retry (write_register_once error_wire
         (with_flags true false (RD "failsafe_current_a" 2000 1 Holding Uint16 NumberE)) 16) tt
     in (evs, res)).
Proof.
  split; [reflexivity|]. split; [reflexivity|]. split.
  - apply (proj1 (async_write_register_gate error_wire
                    (RD "charging_state" 1001 1 Holding Uint16 Sensor) 7)).
    reflexivity.
  - apply (proj2 (async_write_register_gate error_wire
                    (with_flags true false (RD "failsafe_current_a" 2000 1 Holding Uint16 NumberE)) 16)).
    reflexivity.
Defined.

(* ------------------------------------------------------------------ *)
(** ** Life-bit loop *)

(** C6 (code bug): when the timeout register was read as 30 in one cycle
    and its read fails in the next, the next cycle polls for the default
    60 seconds, not the last known 30: [poll_timeout = 60] is assigned at
    the top of every iteration, although the comment on the guarded read
    says the last known value is used.  The read still precedes the
    write of 1 in each cycle. *)
Theorem life_bit_timeout_falls_back_to_default :
  life_bit_loop [cycle_with_read (Ok (DInt 30));
                 cycle_with_read (Exc (WebastoModbusError "timeout"))] None =
    ([ReadTimeoutRegister; WriteLifeBit 1; PollUntilCleared 30;
      ReadTimeoutRegister; WriteLifeBit 1; PollUntilCleared 60], None) /\
  poll_windows (fst (life_bit_loop [cycle_with_read (Ok (DInt 30));
                                    cycle_with_read (Exc (WebastoModbusError "timeout"))] None))
    = [30; 60].
Proof. split; reflexivity. Qed.

(* ------------------------------------------------------------------ *)
(** ** Bulk read *)

Lemma optional_not_a_slot : ("optional"%string ∉ RegisterDefinition_slots).
Proof. eapply bool_decide_unpack. vm_compute. exact I. Qed.

(** C1 (code bug): when the first block of the plan gets an error
    response, the bulk read does not prune the block or map its keys to
    null: evaluating [reg.optional] raises [AttributeError], since
    [RegisterDefinition] has no slot [optional]; the exception is not a
    transport failure, so it escapes [async_read_data] after one attempt
    without retry and aborts the whole read cycle. *)
Theorem bulk_read_error_response_raises (wire : nat -> Wire) rq rest
    (Hregs : rq_registers rq <> [])
    (Hconn : wire_connects (wire 1%nat) = true)
    (Herr : wire_read (wire 1%nat) rq = Some ErrorResponse) :
  async_read_data wire (rq :: rest) =
    (rq :: rest, [Attempt 1], Exc (AttributeError "optional")).
Proof.
  unfold async_read_data, call_with_retry, MAX_RETRY_ATTEMPTS. cbn [retry_loop].
  unfold async_read_data_once. rewrite Hconn. cbn [negb read_blocks]. rewrite Herr.
  destruct (rq_registers rq) as [|d regs]; [done|]. reflexivity.
Qed.

(** Witness: the first block of the cached plan, [charge_point_state] at
    1000, answered with an error response. *)
Lemma bulk_read_error_response_raises_witness :
  rq_registers (make_request Holding 1000 1001 [RD "charge_point_state" 1000 1 Holding Uint16 Sensor]) <> [] /\
  wire_connects (error_wire 1%nat) = true /\
  wire_read (error_wire 1%nat)
    (make_request Holding 1000 1001 [RD "charge_point_state" 1000 1 Holding Uint16 Sensor])
    = Some ErrorResponse /\
  async_read_data error_wire
    (make_request Holding 1000 1001 [RD "charge_point_state" 1000 1 Holding Uint16 Sensor]
       :: tail initial_read_plan) =
    (make_request Holding 1000 1001 [RD "charge_point_state" 1000 1 Holding Uint16 Sensor]
       :: tail initial_read_plan, [Attempt 1], Exc (AttributeError "optional")).
Proof.
  split; [discriminate|]. split; [reflexivity|]. split; [reflexivity|].
  apply bulk_read_error_response_raises; [discriminate|reflexivity|reflexivity].
Defined.

(* ------------------------------------------------------------------ *)
(** ** Default scenario *)

(** C9 (code bug): the default scenario cannot be materialised:
    [create_state] raises [KeyError] on its first value key
    "serial_number", which names no catalog definition (nor do
    charge_point_id, charge_point_brand, charge_point_model,
    firmware_version, voltage_l1..3_v, rated_power_w,
    phase_configuration, charge_power_w).  With the default action table
    on an otherwise empty scenario, writing the start value 1 to 5006
    stores charging_state = 1 and the power registers and then raises
    [KeyError] on "charge_power_w": the updates are not applied as one
    step. *)
Theorem default_scenario_breaks :
  create_state (build_default_scenario 255) = Exc (KeyError "serial_number") /\
  match create_state {| sc_unit_id := 255; sc_values := [];
                        sc_write_actions := sc_write_actions (build_default_scenario 255) |} with
  | Ok st =>
      let '(st', err) := write_register st 5006 SESSION_COMMAND_START_VALUE in
      err = Some (KeyError "charge_power_w") /\
      read_block st' Holding 1000 2 = [2; 1] /\
      read_block st' Holding 1020 2 = [0; 7400]
  | Exc _ => False
  end.
Proof. split; vm_compute; [reflexivity|]. split; [reflexivity|split; reflexivity]. Qed.

(* ------------------------------------------------------------------ *)
(** ** Codec *)

Ltac zcases :=
  repeat (match goal with
    | |- context [Z.ltb ?x ?y] => destruct (Z.ltb_spec x y)
    | |- context [Z.leb ?x ?y] => destruct (Z.leb_spec x y)
    | |- context [Z.eqb ?x ?y] => destruct (Z.eqb_spec x y)
    end; cbn [andb orb negb]; try (exfalso; lia)).

Ltac zcases_in H :=
  repeat (match type of H with
    | context [Z.ltb ?x ?y] => destruct (Z.ltb_spec x y)
    | context [Z.leb ?x ?y] => destruct (Z.leb_spec x y)
    | context [Z.eqb ?x ?y] => destruct (Z.eqb_spec x y)
    end; cbn [andb orb negb] in H; try (exfalso; lia); try discriminate H).

Lemma bind_Ok {A B} (m : except A) (k : A -> except B) b :
  (x ← m; k x) = Ok b -> exists a, m = Ok a /\ k a = Ok b.
Proof. destruct m as [a|e]; cbn; [eauto|discriminate]. Qed.

Lemma utf8_decode_1 b rest : 0 <= b < 0x80 -> utf8_decode (b :: rest) = b :: utf8_decode rest.
Proof. intros. cbn [utf8_decode]. zcases; done. Qed.

Lemma utf8_decode_2 b0 b1 rest : 0xC2 <= b0 <= 0xDF -> 0x80 <= b1 <= 0xBF ->
  utf8_decode (b0 :: b1 :: rest) = ((b0 - 0xC0) * 64 + (b1 - 0x80)) :: utf8_decode rest.
Proof. intros. cbn [utf8_decode]. unfold is_cont. zcases; done. Qed.

Lemma utf8_decode_3 b0 b1 b2 rest : 0xE0 <= b0 <= 0xEF -> second_ok b0 b1 = true ->
  0x80 <= b2 <= 0xBF ->
  utf8_decode (b0 :: b1 :: b2 :: rest) =
    ((b0 - 0xE0) * 4096 + (b1 - 0x80) * 64 + (b2 - 0x80)) :: utf8_decode rest.
Proof. intros ? Hs ?. cbn [utf8_decode]. rewrite Hs. unfold is_cont. zcases; done. Qed.

Lemma utf8_decode_4 b0 b1 b2 b3 rest : 0xF0 <= b0 <= 0xF4 -> second_ok b0 b1 = true ->
  0x80 <= b2 <= 0xBF -> 0x80 <= b3 <= 0xBF ->
  utf8_decode (b0 :: b1 :: b2 :: b3 :: rest) =
    ((b0 - 0xF0) * 262144 + (b1 - 0x80) * 4096 + (b2 - 0x80) * 64 + (b3 - 0x80))
      :: utf8_decode rest.
Proof. intros ? Hs ? ?. cbn [utf8_decode]. rewrite Hs. unfold is_cont. zcases; done. Qed.

(** One code point: its UTF-8 bytes are bytes, the last one is nonzero
    unless the code point is NUL, and decoding reads the code point back. *)
Lemma utf8_char_ok c b rest : utf8_encode_char c = Ok b ->
  b <> [] /\ Forall (fun x => 0 <= x < 256) b /\ (c <> 0 -> last b <> Some 0) /\
  utf8_decode (b ++ rest) = c :: utf8_decode rest.
Proof.
  intros H. unfold utf8_encode_char in H.
  replace (c / 4096) with (c / 64 / 64) in H by (rewrite Z.div_div; [reflexivity|lia|lia]).
  replace (c / 262144) with (c / 64 / 64 / 64) in H
    by (rewrite !Z.div_div; [reflexivity|lia|lia|lia|lia]).
  pose proof (Z.div_mod c 64 ltac:(lia)) as E0.
  pose proof (Z.mod_pos_bound c 64 ltac:(lia)) as B0.
  pose proof (Z.div_mod (c/64) 64 ltac:(lia)) as E1.
  pose proof (Z.mod_pos_bound (c/64) 64 ltac:(lia)) as B1.
  pose proof (Z.div_mod (c/64/64) 64 ltac:(lia)) as E2.
  pose proof (Z.mod_pos_bound (c/64/64) 64 ltac:(lia)) as B2.
  set (e := c/64/64/64) in *. set (r2 := c/64/64 mod 64) in *. set (a2 := c/64/64) in *.
  set (r1 := c/64 mod 64) in *. set (a1 := c/64) in *. set (r0 := c mod 64) in *.
  clearbody e r2 a2 r1 a1 r0.
  zcases_in H; injection H as <-;
    (split; [discriminate|]);
    (split; [repeat first [apply List.Forall_nil | apply List.Forall_cons]; cbv beta; lia|]);
    (split; [intros Hc; cbn; intros Heq; injection Heq; lia|]); cbn [app];
    first
      [ rewrite utf8_decode_1 by lia; done
      | rewrite utf8_decode_2 by lia; f_equal; lia
      | rewrite utf8_decode_3; [f_equal; lia|lia|unfold second_ok, is_cont; zcases; done|lia]
      | rewrite utf8_decode_4;
          [f_equal; lia|lia|unfold second_ok, is_cont; zcases; done|lia|lia] ].
Qed.

Lemma char_ok enc c b rest :
  (match enc with Ascii => ascii_encode_char c | Utf8 => utf8_encode_char c end) = Ok b ->
  b <> [] /\ Forall (fun x => 0 <= x < 256) b /\ (c <> 0 -> last b <> Some 0) /\
  decode_text enc (b ++ rest) = c :: decode_text enc rest.
Proof.
  destruct enc; [|apply utf8_char_ok].
  unfold ascii_encode_char. intros H. zcases_in H. injection H as <-.
  split; [discriminate|]. split; [repeat constructor; lia|].
  split; [intros Hc; cbn; intros Heq; injection Heq; lia|].
  cbn. zcases; done.
Qed.

Lemma encode_text_ok enc s bs : encode_text enc s = Ok bs ->
  Forall (fun x => 0 <= x < 256) bs /\ (s <> [] -> bs <> []) /\
  (last s <> Some 0 -> last bs <> Some 0) /\
  (forall rest, decode_text enc (bs ++ rest) = s ++ decode_text enc rest).
Proof.
  revert bs. induction s as [|c s IH]; intros bs H.
  - injection H as <-. split; [constructor|]. split; [done|]. split; [done|]. done.
  - cbn [encode_text] in H. apply bind_Ok in H as (b & Hb & H).
    apply bind_Ok in H as (rest' & Hrest & H). injection H as <-.
    destruct (char_ok enc c b [] Hb) as (Hne & Hbytes & _ & _).
    destruct (IH rest' Hrest) as (Hbytes' & Hne' & Hlast' & Hdec').
    split; [by apply Forall_app|].
    split; [destruct b; [done|discriminate]|].
    split.
    + intros Hl. rewrite last_app.
      destruct s as [|c' s'].
      * injection Hrest as <-. cbn.
        destruct (char_ok enc c b [] Hb) as (_ & _ & Hlast & _).
        apply Hlast. intros ->. by apply Hl.
      * assert (Hl' : last (c' :: s') <> Some 0).
        { rewrite last_cons in Hl. by destruct (last (c' :: s')). }
        specialize (Hlast' Hl'). specialize (Hne' ltac:(discriminate)).
        destruct (last rest') eqn:E; [done|].
        by apply last_None in E.
    + intros rest. rewrite <- app_assoc.
      destruct (char_ok enc c b (rest' ++ rest) Hb) as (_ & _ & _ & ->).
      by rewrite Hdec'.
Qed.





Section QRound.
Local Open Scope Q_scope.

Lemma py_round_spec q : -(1#2) <= inject_Z (py_round q) - q <= 1#2.
Proof.
  unfold py_round. pose proof (Qfloor_le q) as Hlo. pose proof (Qlt_floor q) as Hhi.
  rewrite inject_Z_plus in *. set (f := Qfloor q) in *.
  change (inject_Z 1) with 1 in *.
  destruct (Qcompare_spec (q - inject_Z f) (1#2)) as [H|H|H].
  - destruct (Z.even f); rewrite ?inject_Z_plus; change (inject_Z 1) with 1; lra.
  - lra.
  - rewrite inject_Z_plus. change (inject_Z 1) with 1. lra.
Qed.

Lemma py_round_nonneg q : 0 <= q -> (0 <= py_round q)%Z.
Proof.
  intros Hq. assert (H0 : (Qfloor 0 <= Qfloor q)%Z) by (apply Qfloor_resp_le; exact Hq).
  change (Qfloor 0) with 0%Z in H0. unfold py_round.
  destruct (_ ?= _); [destruct (Z.even _)|..]; lia.
Qed.


Lemma py_round_Z z : py_round (inject_Z z) = z.
Proof.
  unfold py_round. rewrite Qfloor_Z.
  destruct (Qcompare_spec (inject_Z z - inject_Z z) (1#2)); [lra|done|lra].
Qed.

Lemma py_round_proper q q' : q == q' -> py_round q = py_round q'.
Proof.
  intros H. unfold py_round. rewrite (Qfloor_comp q q' H).
  assert (E : (q - inject_Z (Qfloor q') ?= 1#2) = (q' - inject_Z (Qfloor q') ?= 1#2)).
  { apply Qcompare_comp; [|reflexivity]. rewrite H. reflexivity. }
  by rewrite E.
Qed.


End QRound.

Lemma py_int_of_Q_inject (z : Z) : py_int_of_Q (inject_Z z) = z.
Proof.
  unfold py_int_of_Q. destruct (Qle_bool 0 (inject_Z z)).
  - apply Qfloor_Z.
  - rewrite <- inject_Z_opp, Qfloor_Z. lia.
Qed.

Section Binary64.
Local Open Scope Q_scope.

Lemma pow2_pos e : 0 < pow2 e.
Proof. apply Qpower_0_lt. lra. Qed.

Lemma pow2_add a b : pow2 (a + b) == pow2 a * pow2 b.
Proof. unfold pow2. apply Qpower_plus. lra. Qed.

Lemma pow2_le a b : (a <= b)%Z -> pow2 a <= pow2 b.
Proof. intros H. apply Qpower_le_compat_l; [exact H|lra]. Qed.

Lemma pow2_lt a b : (a < b)%Z -> pow2 a < pow2 b.
Proof. intros H. apply Qpower_lt_compat_l; [exact H|lra]. Qed.

Lemma pow2_lt_inv a b : pow2 a < pow2 b -> (a < b)%Z.
Proof. intros H. apply (Qpower_lt_compat_l_inv 2); [exact H|lra]. Qed.

Lemma pow2_Z n : (0 <= n)%Z -> pow2 n == inject_Z (2 ^ n).
Proof. intros H. unfold pow2. rewrite Zpower_Qpower by exact H. reflexivity. Qed.

Lemma pow2_sub a b : (0 <= a)%Z -> (0 <= b)%Z ->
  pow2 (a - b) == inject_Z (2 ^ a) / inject_Z (2 ^ b).
Proof.
  intros Ha Hb. replace (a - b)%Z with (a + - b)%Z by lia.
  rewrite pow2_add. unfold pow2 at 2. rewrite Qpower_opp. fold (pow2 b).
  rewrite !pow2_Z by lia. reflexivity.
Qed.

Lemma Qdiv_Z_le a b c e : (0 < b)%Z -> (0 < e)%Z ->
  inject_Z a / inject_Z b <= inject_Z c / inject_Z e <-> (a * e <= c * b)%Z.
Proof.
  intros Hb He.
  assert (Hb' : 0 < inject_Z b) by (change 0 with (inject_Z 0); rewrite <- Zlt_Qlt; exact Hb).
  assert (He' : 0 < inject_Z e) by (change 0 with (inject_Z 0); rewrite <- Zlt_Qlt; exact He).
  rewrite <- (Qmult_le_r _ _ (inject_Z b * inject_Z e)) by (apply Qmult_lt_0_compat; assumption).
  assert (E1 : inject_Z a / inject_Z b * (inject_Z b * inject_Z e) == inject_Z (a * e))
    by (rewrite inject_Z_mult; field; intros H; rewrite H in Hb'; lra).
  assert (E2 : inject_Z c / inject_Z e * (inject_Z b * inject_Z e) == inject_Z (c * b))
    by (rewrite inject_Z_mult; field; intros H; rewrite H in He'; lra).
  rewrite E1, E2.
  rewrite <- Zle_Qle. reflexivity.
Qed.

Lemma Qdiv_Z_lt a b c e : (0 < b)%Z -> (0 < e)%Z ->
  inject_Z a / inject_Z b < inject_Z c / inject_Z e <-> (a * e < c * b)%Z.
Proof.
  intros Hb He. split.
  - intros H. destruct (Z.lt_ge_cases (a * e) (c * b)) as [|Hge]; [done|].
    apply (Qdiv_Z_le c e a b He Hb) in Hge. lra.
  - intros H. destruct (Qlt_le_dec (inject_Z a / inject_Z b) (inject_Z c / inject_Z e)) as [|Hge]; [done|].
    apply (Qdiv_Z_le c e a b He Hb) in Hge. lia.
Qed.

Lemma Qlog2_floor_spec x : 0 < x ->
  pow2 (Qlog2_floor x) <= x < pow2 (Qlog2_floor x + 1).
Proof.
  destruct x as [p d]. intros Hx.
  assert (Hp : (0 < p)%Z) by (unfold Qlt in Hx; cbn in Hx; lia).
  unfold Qlog2_floor. cbn [Qnum Qden].
  pose proof (Z.log2_spec p Hp) as [Hp1 Hp2].
  pose proof (Z.log2_spec (Zpos d) ltac:(lia)) as [Hd1 Hd2].
  pose proof (Z.log2_nonneg p) as Hn1. pose proof (Z.log2_nonneg (Zpos d)) as Hn2.
  set (lp := Z.log2 p) in *. set (ld := Z.log2 (Zpos d)) in *.
  rewrite Z.pow_succ_r in Hp2, Hd2 by lia.
  assert (Ex : p # d == inject_Z p / inject_Z (Zpos d)) by apply Qmake_Qdiv.
  assert (Hup : p # d < pow2 (lp - ld + 1)).
  { replace (lp - ld + 1)%Z with ((lp + 1) - ld)%Z by lia.
    rewrite pow2_sub, Ex by lia. apply Qdiv_Z_lt; [lia|lia|].
    rewrite Z.pow_add_r by lia. change (2 ^ 1)%Z with 2%Z. nia. }
  assert (Hlo : pow2 (lp - ld - 1) <= p # d).
  { replace (lp - ld - 1)%Z with (lp - (ld + 1))%Z by lia.
    rewrite pow2_sub, Ex by lia. apply Qdiv_Z_le; [lia|lia|].
    rewrite Z.pow_add_r by lia. change (2 ^ 1)%Z with 2%Z. nia. }
  destruct (Qle_bool (pow2 (lp - ld)) (p # d)) eqn:E.
  - apply Qle_bool_imp_le in E. split; assumption.
  - assert (Hn : ~ pow2 (lp - ld) <= p # d) by (intros H; apply Qle_bool_iff in H; congruence).
    apply Qnot_le_lt in Hn. split; [exact Hlo|]. replace (lp - ld - 1 + 1)%Z with (lp - ld)%Z by lia.
    exact Hn.
Qed.

Lemma Qlog2_floor_unique x k : pow2 k <= x < pow2 (k + 1) -> Qlog2_floor x = k.
Proof.
  intros [H1 H2].
  assert (Hx : 0 < x) by (pose proof (pow2_pos k); lra).
  destruct (Qlog2_floor_spec x Hx) as [H3 H4].
  set (j := Qlog2_floor x) in *.
  destruct (Z.lt_trichotomy j k) as [Hlt|[Heq|Hgt]]; [|exact Heq|].
  - pose proof (pow2_le (j + 1) k ltac:(lia)). lra.
  - pose proof (pow2_le (k + 1) j ltac:(lia)). lra.
Qed.

Lemma Qlog2_floor_proper x y : 0 < x -> x == y -> Qlog2_floor x = Qlog2_floor y.
Proof.
  intros Hx E. symmetry. apply Qlog2_floor_unique. rewrite <- E. apply Qlog2_floor_spec, Hx.
Qed.

Lemma ulp_exp_proper x y : 0 < x -> x == y -> ulp_exp x = ulp_exp y.
Proof. intros Hx E. unfold ulp_exp. by rewrite (Qlog2_floor_proper x y Hx E). Qed.

Lemma round_ulp_proper x y : 0 < x -> x == y -> round_ulp x == round_ulp y.
Proof.
  intros Hx E. unfold round_ulp. rewrite <- (ulp_exp_proper x y Hx E).
  set (e := ulp_exp x).
  assert (Hr : py_round (x / pow2 e) = py_round (y / pow2 e))
    by (apply py_round_proper; rewrite E; reflexivity).
  rewrite Hr. reflexivity.
Qed.

Lemma binary64_proper neg a b : a == b -> binary64 neg a = binary64 neg b.
Proof.
  intros E. unfold binary64.
  assert (Ea : Qle_bool a 0 = Qle_bool b 0).
  { destruct (Qle_bool a 0) eqn:F1, (Qle_bool b 0) eqn:F2; try done.
    - apply Qle_bool_iff in F1. rewrite E in F1. apply Qle_bool_iff in F1. congruence.
    - apply Qle_bool_iff in F2. rewrite <- E in F2. apply Qle_bool_iff in F2. congruence. }
  rewrite <- Ea. destruct (Qle_bool a 0) eqn:Ha; [done|].
  assert (Hpos : 0 < a).
  { apply Qnot_le_lt. intros H. apply Qle_bool_iff in H. congruence. }
  pose proof (round_ulp_proper a b Hpos E) as R.
  set (ra := round_ulp a) in *. set (rb := round_ulp b) in *.
  assert (E1 : Qle_bool (pow2 1024) ra = Qle_bool (pow2 1024) rb).
  { destruct (Qle_bool (pow2 1024) ra) eqn:F1, (Qle_bool (pow2 1024) rb) eqn:F2; try done.
    - apply Qle_bool_iff in F1. rewrite R in F1. apply Qle_bool_iff in F1. congruence.
    - apply Qle_bool_iff in F2. rewrite <- R in F2. apply Qle_bool_iff in F2. congruence. }
  assert (E2 : Qeq_bool ra 0 = Qeq_bool rb 0).
  { destruct (Qeq_bool ra 0) eqn:F1, (Qeq_bool rb 0) eqn:F2; try done.
    - apply Qeq_bool_iff in F1. rewrite R in F1. apply Qeq_bool_iff in F1. congruence.
    - apply Qeq_bool_iff in F2. rewrite <- R in F2. apply Qeq_bool_iff in F2. congruence. }
  rewrite E1, E2. destruct (Qle_bool (pow2 1024) rb), (Qeq_bool rb 0); try reflexivity.
  destruct neg; f_equal; apply Qred_complete; [rewrite R; reflexivity|exact R].
Qed.

Lemma inject_Z_sub a b : inject_Z (a - b) == inject_Z a - inject_Z b.
Proof. unfold Z.sub. rewrite inject_Z_plus, inject_Z_opp. ring. Qed.

Lemma pow2_nz e : ~ pow2 e == 0.
Proof. pose proof (pow2_pos e) as H. intros H'. rewrite H' in H. lra. Qed.

Lemma Qred_inject_Z z : Qred (inject_Z z) = inject_Z z.
Proof.
  unfold Qred, inject_Z.
  pose proof (Z.ggcd_gcd z 1) as Hg. pose proof (Z.ggcd_correct_divisors z 1) as Hd.
  destruct (Z.ggcd z 1) as [g [a b]]. cbn in Hg, Hd. rewrite Z.gcd_1_r in Hg. subst g.
  destruct Hd as [H1 H2]. rewrite Z.mul_1_l in H1, H2. by subst.
Qed.

Lemma py_round_ge_floor q : (Qfloor q <= py_round q)%Z.
Proof. unfold py_round. destruct (_ ?= _); [destruct (Z.even _)|..]; lia. Qed.

Lemma py_round_lt_half q (N : Z) : q < inject_Z N + (1#2) -> (py_round q <= N)%Z.
Proof.
  intros Hq. pose proof (Qfloor_le q) as Hlo. unfold py_round. set (f := Qfloor q) in *.
  assert (Hf : (f <= N)%Z).
  { destruct (Z.le_gt_cases f N) as [|Hgt]; [done|].
    assert (inject_Z (N + 1) <= inject_Z f) by (rewrite <- Zle_Qle; lia).
    rewrite inject_Z_plus in *. change (inject_Z 1) with 1 in *. lra. }
  destruct (Z.eq_dec f N) as [->|Hne].
  - destruct (Qcompare_spec (q - inject_Z N) (1#2)) as [H|H|H]; [|lia|]; lra.
  - destruct (_ ?= _); [destruct (Z.even _)|..]; lia.
Qed.

Lemma py_round_ge_half q (N : Z) : Z.odd N = true -> inject_Z N + (1#2) <= q ->
  (N + 1 <= py_round q)%Z.
Proof.
  intros Hodd Hq. pose proof (Qlt_floor q) as Hhi. pose proof (py_round_ge_floor q) as Hge.
  unfold py_round in *. set (f := Qfloor q) in *.
  assert (Hf : (N <= f)%Z).
  { destruct (Z.le_gt_cases N f) as [|Hlt]; [done|].
    assert (inject_Z (f + 1) <= inject_Z N) by (rewrite <- Zle_Qle; lia). lra. }
  destruct (Z.eq_dec f N) as [->|Hne]; [|lia].
  destruct (Qcompare_spec (q - inject_Z N) (1#2)) as [H|H|H].
  - rewrite <- Z.negb_odd, Hodd. cbn. lia.
  - lra.
  - lia.
Qed.

Lemma round_ulp_err a : 0 < a -> Qabs (round_ulp a - a) <= pow2 (ulp_exp a) * (1#2).
Proof.
  intros Ha. unfold round_ulp. set (e := ulp_exp a). pose proof (pow2_pos e) as He.
  set (y := a / pow2 e).
  assert (Ea : a == y * pow2 e) by (unfold y; field; apply pow2_nz).
  pose proof (py_round_spec y) as Hs.
  assert (E : inject_Z (py_round y) * pow2 e - a == (inject_Z (py_round y) - y) * pow2 e)
    by (rewrite Ea at 1; ring).
  rewrite E, Qabs_Qmult, (Qabs_pos (pow2 e)) by lra.
  rewrite (Qmult_comm (pow2 e) (1#2)). apply Qmult_le_compat_r; [|lra].
  apply Qabs_Qle_condition. lra.
Qed.

Lemma round_ulp_nonneg a : 0 < a -> 0 <= round_ulp a.
Proof.
  intros Ha. unfold round_ulp. pose proof (pow2_pos (ulp_exp a)).
  apply Qmult_le_0_compat; [|lra].
  change 0 with (inject_Z 0). rewrite <- Zle_Qle. apply py_round_nonneg.
  apply Qle_shift_div_l; [lra|]. rewrite Qmult_0_l. lra.
Qed.






Lemma round_ulp_exact a m : 0 < a -> a == inject_Z m * pow2 (ulp_exp a) -> round_ulp a == a.
Proof.
  intros Ha E. unfold round_ulp. set (e := ulp_exp a) in *.
  assert (Hy : a / pow2 e == inject_Z m) by (rewrite E; field; apply pow2_nz).
  rewrite (py_round_proper _ _ Hy), py_round_Z. symmetry. exact E.
Qed.


(** A value [m * 2^e] with a 53-bit [m] and [e >= -1074] is a float. *)
Lemma round_ulp_double m e : (0 < m < 2 ^ 53)%Z -> (-1074 <= e)%Z ->
  round_ulp (inject_Z m * pow2 e) == inject_Z m * pow2 e.
Proof.
  intros Hm He. set (a := inject_Z m * pow2 e).
  assert (Hm0 : 0 < inject_Z m) by (change 0 with (inject_Z 0); rewrite <- Zlt_Qlt; lia).
  assert (Ha : 0 < a) by (apply Qmult_lt_0_compat; [exact Hm0|apply pow2_pos]).
  pose proof (Qlog2_floor_spec a Ha) as [H1 H2].
  assert (Hup : a < pow2 (53 + e)).
  { rewrite pow2_add, (pow2_Z 53) by lia. unfold a.
    apply Qmult_lt_compat_r; [apply pow2_pos|rewrite <- Zlt_Qlt; lia]. }
  assert (Hk : (Qlog2_floor a < 53 + e)%Z) by (apply pow2_lt_inv; lra).
  set (u := ulp_exp a).
  assert (Hu : (u <= e)%Z) by (unfold u, ulp_exp; lia).
  apply (round_ulp_exact a (m * 2 ^ (e - u))); [exact Ha|]. fold u.
  unfold a. rewrite inject_Z_mult, <- pow2_Z by lia. rewrite <- Qmult_assoc, <- pow2_add.
  replace (e - u + u)%Z with e by lia. reflexivity.
Qed.

Lemma Qle_bool_false x y : y < x -> Qle_bool x y = false.
Proof. intros H. apply not_true_iff_false. intros H'. apply Qle_bool_iff in H'. lra. Qed.

Lemma binary64_pos_cases neg a : 0 < a ->
  binary64 neg a =
    if Qle_bool (pow2 1024) (round_ulp a) then Inf neg
    else if Qeq_bool (round_ulp a) 0 then (if neg then NegZero else Fin 0)
    else Fin (Qred (if neg then - round_ulp a else round_ulp a)).
Proof. intros Ha. unfold binary64. cbv zeta. rewrite (Qle_bool_false a 0 Ha). reflexivity. Qed.

Lemma binary64_nonpos neg a : a <= 0 -> binary64 neg a = if neg then NegZero else Fin 0.
Proof.
  intros H. unfold binary64. replace (Qle_bool a 0) with true by (symmetry; apply Qle_bool_iff, H).
  destruct neg; reflexivity.
Qed.


Lemma binary64_int z : (0 <= z < 2 ^ 53)%Z -> binary64 false (inject_Z z) = Fin (inject_Z z).
Proof.
  intros Hz. destruct (Z.eq_dec z 0) as [->|Hz0]; [reflexivity|].
  assert (Ha : 0 < inject_Z z) by (change 0 with (inject_Z 0); rewrite <- Zlt_Qlt; lia).
  assert (R : round_ulp (inject_Z z) == inject_Z z).
  { assert (E : inject_Z z == inject_Z z * pow2 0) by (change (pow2 0) with 1; ring).
    rewrite (round_ulp_proper _ _ Ha E), round_ulp_double by lia. symmetry. exact E. }
  rewrite binary64_pos_cases by exact Ha.
  rewrite Qle_bool_false.
  2:{ rewrite R, pow2_Z by lia. rewrite <- Zlt_Qlt. lia. }
  replace (Qeq_bool (round_ulp (inject_Z z)) 0) with false.
  2:{ symmetry. apply not_true_iff_false. intros H. apply Qeq_bool_iff in H. rewrite R in H. lra. }
  f_equal. rewrite (Qred_complete _ _ R). apply Qred_inject_Z.
Qed.

Lemma float_of_int_small z : (0 <= z < 2 ^ 53)%Z -> float_of_int z = Ok (Fin (inject_Z z)).
Proof.
  intros H. unfold float_of_int. replace (z <? 0)%Z with false by (symmetry; apply Z.ltb_ge; lia).
  rewrite Z.abs_eq by lia. by rewrite binary64_int.
Qed.




(** Rounding a positive value reaches [2^1024] exactly from
    [2^1024 - 2^970] on (half an ulp below [2^1024], a tie rounding to
    the even significand [2^53]). *)
Lemma round_ulp_overflow a : 0 < a -> pow2 1024 <= round_ulp a <-> pow2 1024 - pow2 970 <= a.
Proof.
  intros Ha. pose proof (Qlog2_floor_spec a Ha) as [H1 H2].
  assert (P1 : pow2 1024 == pow2 53 * pow2 971) by (rewrite <- pow2_add; reflexivity).
  assert (P2 : pow2 970 == (1#2) * pow2 971) by (unfold Qeq; vm_compute; reflexivity).
  assert (P3 : pow2 1024 == 2 * pow2 1023) by (unfold Qeq; vm_compute; reflexivity).
  assert (P4 : pow2 969 * 4 == pow2 971) by (unfold Qeq; vm_compute; reflexivity).
  pose proof (pow2_pos 971) as Q971. pose proof (pow2_pos 969) as Q969.
  assert (Hodd : Z.odd (2 ^ 53 - 1) = true) by reflexivity.
  assert (E53 : pow2 53 == inject_Z (2 ^ 53)) by (apply pow2_Z; lia).
  unfold round_ulp. split.
  - intros Hov. destruct (Qlt_le_dec a (pow2 1024 - pow2 970)) as [Hlt|]; [|done]. exfalso.
    assert (Hk : (Qlog2_floor a < 1024)%Z) by (apply pow2_lt_inv; lra).
    destruct (Z.eq_dec (Qlog2_floor a) 1023) as [Hk3|Hk3].
    + assert (Hu : ulp_exp a = 971%Z) by (unfold ulp_exp; lia). rewrite Hu in Hov.
      assert (Hy : a / pow2 971 < inject_Z (2 ^ 53 - 1) + (1#2)).
      { apply Qlt_shift_div_r; [exact Q971|]. rewrite inject_Z_sub, <- E53.
        change (inject_Z 1) with 1.
        assert (E : (pow2 53 - 1 + (1#2)) * pow2 971 == pow2 1024 - pow2 970)
          by (rewrite P1, P2; ring).
        lra. }
      apply py_round_lt_half in Hy.
      assert (inject_Z (py_round (a / pow2 971)) <= inject_Z (2 ^ 53 - 1)) by (rewrite <- Zle_Qle; exact Hy).
      rewrite inject_Z_sub, <- E53 in H. change (inject_Z 1) with 1 in H.
      assert (inject_Z (py_round (a / pow2 971)) * pow2 971 <= (pow2 53 - 1) * pow2 971)
        by (apply Qmult_le_compat_r; lra).
      assert (E : (pow2 53 - 1) * pow2 971 == pow2 1024 - pow2 971) by (rewrite P1; ring).
      lra.
    + assert (Hk2 : (Qlog2_floor a + 1 <= 1023)%Z) by lia.
      pose proof (pow2_le _ _ Hk2). pose proof (round_ulp_err a Ha) as Herr.
      unfold round_ulp in Herr. apply Qabs_Qle_condition in Herr.
      assert (Hu : (ulp_exp a <= 970)%Z) by (unfold ulp_exp; lia).
      pose proof (pow2_le _ _ Hu). pose proof (pow2_lt 970 1023 ltac:(lia)). lra.
  - intros Hge.
    assert (Hk : (1023 <= Qlog2_floor a)%Z).
    { pose proof (pow2_lt 970 1023 ltac:(lia)).
      assert (Hl : pow2 1023 < pow2 (Qlog2_floor a + 1)) by lra.
      apply pow2_lt_inv in Hl. lia. }
    destruct (Z.eq_dec (Qlog2_floor a) 1023) as [Hk3|Hk3].
    + assert (Hu : ulp_exp a = 971%Z) by (unfold ulp_exp; lia). rewrite Hu.
      assert (Hy : inject_Z (2 ^ 53 - 1) + (1#2) <= a / pow2 971).
      { apply Qle_shift_div_l; [exact Q971|]. rewrite inject_Z_sub, <- E53.
        change (inject_Z 1) with 1.
        assert (E : (pow2 53 - 1 + (1#2)) * pow2 971 == pow2 1024 - pow2 970)
          by (rewrite P1, P2; ring).
        lra. }
      apply (py_round_ge_half _ _ Hodd) in Hy.
      assert (inject_Z (2 ^ 53) <= inject_Z (py_round (a / pow2 971)))
        by (rewrite <- Zle_Qle; lia).
      rewrite <- E53 in H. rewrite P1. apply Qmult_le_compat_r; lra.
    + assert (Hu : ulp_exp a = (Qlog2_floor a - 52)%Z) by (unfold ulp_exp; lia). rewrite Hu.
      set (k := Qlog2_floor a) in *.
      assert (Ek : pow2 k == pow2 52 * pow2 (k - 52)) by (rewrite <- pow2_add; f_equiv; lia).
      pose proof (pow2_pos (k - 52)) as Pk.
      assert (Hy : inject_Z (2 ^ 52) <= a / pow2 (k - 52)).
      { apply Qle_shift_div_l; [exact Pk|]. rewrite <- pow2_Z, <- Ek by lia. exact H1. }
      assert (Hf : (2 ^ 52 <= Qfloor (a / pow2 (k - 52)))%Z).
      { rewrite <- (Qfloor_Z (2 ^ 52)). apply Qfloor_resp_le. exact Hy. }
      pose proof (py_round_ge_floor (a / pow2 (k - 52))).
      assert (Hr : inject_Z (2 ^ 52) <= inject_Z (py_round (a / pow2 (k - 52))))
        by (rewrite <- Zle_Qle; lia).
      rewrite <- pow2_Z in Hr by lia.
      assert (pow2 52 * pow2 (k - 52) <= inject_Z (py_round (a / pow2 (k - 52))) * pow2 (k - 52))
        by (apply Qmult_le_compat_r; lra).
      pose proof (pow2_le 1024 k ltac:(lia)). lra.
Qed.

Lemma float_of_int_exc z e : float_of_int z = Exc e ->
  e = OverflowError /\ (2 ^ 1024 - 2 ^ 970 <= Z.abs z)%Z.
Proof.
  unfold float_of_int. destruct (Z.eq_dec z 0) as [->|Hz]; [done|].
  assert (Ha : 0 < inject_Z (Z.abs z)) by (change 0 with (inject_Z 0); rewrite <- Zlt_Qlt; lia).
  rewrite binary64_pos_cases by exact Ha.
  destruct (Qle_bool (pow2 1024) (round_ulp (inject_Z (Z.abs z)))) eqn:E.
  - intros H. injection H as <-. split; [done|].
    apply Qle_bool_iff in E. apply (proj1 (round_ulp_overflow _ Ha)) in E.
    rewrite (pow2_Z 1024), (pow2_Z 970), <- inject_Z_sub, <- Zle_Qle in E by lia. exact E.
  - destruct (Qeq_bool _ _), (z <? 0)%Z; discriminate.
Qed.

Lemma float_of_int_overflow z : (2 ^ 1024 - 2 ^ 970 <= Z.abs z)%Z -> float_of_int z = Exc OverflowError.
Proof.
  intros Hz. unfold float_of_int.
  assert (Ha : 0 < inject_Z (Z.abs z)).
  { change 0 with (inject_Z 0). rewrite <- Zlt_Qlt. pose proof (Z.pow_pos_nonneg 2 970). lia. }
  rewrite binary64_pos_cases by exact Ha.
  replace (Qle_bool (pow2 1024) (round_ulp (inject_Z (Z.abs z)))) with true; [done|].
  symmetry. apply Qle_bool_iff, (proj2 (round_ulp_overflow _ Ha)).
  rewrite (pow2_Z 1024), (pow2_Z 970), <- inject_Z_sub, <- Zle_Qle by lia. exact Hz.
Qed.

(** Below the overflow threshold, rounding stays at most [2^1024 - 2^971],
    the largest finite float. *)
Lemma round_ulp_below a : 0 < a -> a < pow2 1024 - pow2 970 -> round_ulp a <= pow2 1024 - pow2 971.
Proof.
  intros Ha Hlt. pose proof (Qlog2_floor_spec a Ha) as [H1 H2].
  assert (P1 : pow2 1024 == pow2 53 * pow2 971) by (rewrite <- pow2_add; reflexivity).
  assert (P2 : pow2 970 == (1#2) * pow2 971) by (unfold Qeq; vm_compute; reflexivity).
  assert (P3 : pow2 1024 == 2 * pow2 1023) by (unfold Qeq; vm_compute; reflexivity).
  assert (P4 : pow2 969 * 4 == pow2 971) by (unfold Qeq; vm_compute; reflexivity).
  assert (P5 : pow2 971 * 4 <= pow2 1023) by (unfold Qle; vm_compute; discriminate).
  pose proof (pow2_pos 971) as Q971. pose proof (pow2_pos 969) as Q969.
  assert (E53 : pow2 53 == inject_Z (2 ^ 53)) by (apply pow2_Z; lia).
  assert (Hk : (Qlog2_floor a < 1024)%Z).
  { apply pow2_lt_inv. pose proof (pow2_pos 970). lra. }
  destruct (Z.eq_dec (Qlog2_floor a) 1023) as [Hk3|Hk3].
  - assert (Hu : ulp_exp a = 971%Z) by (unfold ulp_exp; lia).
    unfold round_ulp. rewrite Hu.
    assert (Hy : a / pow2 971 < inject_Z (2 ^ 53 - 1) + (1#2)).
    { apply Qlt_shift_div_r; [exact Q971|]. rewrite inject_Z_sub, <- E53.
      change (inject_Z 1) with 1.
      assert (E : (pow2 53 - 1 + (1#2)) * pow2 971 == pow2 1024 - pow2 970)
        by (rewrite P1, P2; ring).
      lra. }
    apply py_round_lt_half in Hy.
    assert (H : inject_Z (py_round (a / pow2 971)) <= inject_Z (2 ^ 53 - 1))
      by (rewrite <- Zle_Qle; exact Hy).
    rewrite inject_Z_sub, <- E53 in H. change (inject_Z 1) with 1 in H.
    assert (inject_Z (py_round (a / pow2 971)) * pow2 971 <= (pow2 53 - 1) * pow2 971)
      by (apply Qmult_le_compat_r; lra).
    assert (E : (pow2 53 - 1) * pow2 971 == pow2 1024 - pow2 971) by (rewrite P1; ring).
    lra.
  - assert (Hk2 : (Qlog2_floor a + 1 <= 1023)%Z) by lia.
    pose proof (pow2_le _ _ Hk2). pose proof (round_ulp_err a Ha) as Herr.
    apply Qabs_Qle_condition in Herr.
    assert (Hu : (ulp_exp a <= 970)%Z) by (unfold ulp_exp; lia).
    pose proof (pow2_le _ _ Hu).
    assert (pow2 970 == pow2 969 * 2) by (unfold Qeq; vm_compute; reflexivity). lra.
Qed.

(** A float computed from a value below the overflow threshold is
    finite: [int()] of it succeeds. *)
Lemma binary64_fin neg b : b < pow2 1024 - pow2 970 -> exists n, float_int (binary64 neg b) = Ok n.
Proof.
  intros Hb. destruct (Qlt_le_dec 0 b) as [Hp|Hn].
  - rewrite binary64_pos_cases by exact Hp.
    replace (Qle_bool (pow2 1024) (round_ulp b)) with false.
    + destruct (Qeq_bool _ _), neg; cbn; eauto.
    + symmetry. apply not_true_iff_false. intros E. apply Qle_bool_iff in E.
      apply (proj1 (round_ulp_overflow b Hp)) in E. lra.
  - rewrite binary64_nonpos by exact Hn. destruct neg; cbn; eauto.
Qed.

(** [float(z) * s] with [s == 1] is finite whenever [float(z)] is. *)
Lemma fmul_unit_fin z x s : float_of_int z = Ok x -> s == 1 ->
  exists n, float_int (fmul x (Fin s)) = Ok n.
Proof.
  intros H Hs. pose proof (pow2_pos 971). pose proof (pow2_pos 970).
  assert (Hgap : pow2 970 < pow2 1024) by (apply pow2_lt; lia).
  assert (Hgap2 : pow2 971 < pow2 1024) by (apply pow2_lt; lia).
  assert (P2 : pow2 970 == (1#2) * pow2 971) by (unfold Qeq; vm_compute; reflexivity).
  assert (Hfm : forall q, fmul (Fin q) (Fin s) = binary64 (xorb (fsign (Fin q)) (fsign (Fin s))) (Qabs q * Qabs s))
    by reflexivity.
  assert (Hfz : fmul NegZero (Fin s) = binary64 (xorb true (fsign (Fin s))) (0 * Qabs s))
    by reflexivity.
  assert (Hs1 : Qabs s == 1) by (rewrite Hs; reflexivity).
  assert (Hzero : forall neg, exists n, float_int (binary64 neg (0 * Qabs s)) = Ok n).
  { intros neg. apply binary64_fin. rewrite Qmult_0_l. lra. }
  unfold float_of_int in H. destruct (Z.eq_dec z 0) as [->|Hz].
  - vm_compute in H. injection H as <-. rewrite Hfm. apply binary64_fin. rewrite Hs1, Qmult_1_r, Qabs_pos by lra. lra.
  - assert (Ha : 0 < inject_Z (Z.abs z)) by (change 0 with (inject_Z 0); rewrite <- Zlt_Qlt; lia).
    rewrite binary64_pos_cases in H by exact Ha.
    destruct (Qle_bool (pow2 1024) (round_ulp (inject_Z (Z.abs z)))) eqn:Eov;
      [destruct (z <? 0)%Z; discriminate|].
    set (a := inject_Z (Z.abs z)) in *.
    assert (Hlt : a < pow2 1024 - pow2 970).
    { destruct (Qlt_le_dec a (pow2 1024 - pow2 970)) as [Hl|Hge]; [exact Hl|].
      apply (proj2 (round_ulp_overflow a Ha)), Qle_bool_iff in Hge. congruence. }
    pose proof (round_ulp_below a Ha Hlt) as Hr. pose proof (round_ulp_nonneg a Ha) as Hr0.
    destruct (Qeq_bool (round_ulp a) 0), (z <? 0)%Z; injection H as <-;
      first [rewrite Hfz; apply Hzero|rewrite Hfm; apply binary64_fin].
    + rewrite Hs1, Qmult_1_r, Qabs_pos by lra. lra.
    + rewrite Hs1, Qmult_1_r, Qred_correct, Qabs_opp, Qabs_pos by exact Hr0. lra.
    + rewrite Hs1, Qmult_1_r, Qred_correct, Qabs_pos by exact Hr0. lra.
Qed.

End Binary64.

Lemma inject_Z_range (lo hi z : Z) : lo <= z <= hi -> (inject_Z lo <= inject_Z z <= inject_Z hi)%Q.
Proof. intros [H1 H2]. rewrite <- !Zle_Qle. done. Qed.


Section CodecFloat.
Local Open Scope Q_scope.

Lemma Qlt_bool_false x y : y <= x -> Qlt_bool x y = false.
Proof. intros H. unfold Qlt_bool. apply Qle_bool_iff in H. by rewrite H. Qed.




(** The product of two non-negative finite floats. *)
Lemma fmul_nonneg a b : 0 <= a -> 0 <= b -> fmul (Fin a) (Fin b) = binary64 false (a * b).
Proof.
  intros Ha Hb. unfold fmul. cbn [fsign fmag].
  rewrite !Qlt_bool_false by lra. cbn [xorb].
  apply binary64_proper. rewrite !Qabs_pos by lra. reflexivity.
Qed.



(** With [scale == 1] a raw value below [2^53] is decoded as that int. *)
Lemma scaled_one d raw : Qeq_bool (scale d) 1 = true -> (0 <= raw < 2 ^ 53)%Z ->
  scaled d raw = Ok (DInt raw).
Proof.
  intros E1 Hr. pose proof (Qeq_bool_eq _ _ E1) as Hs.
  unfold scaled. rewrite (float_of_int_small raw Hr). cbn [mbind except_bind].
  rewrite E1, fmul_nonneg; [|change 0 with (inject_Z 0); rewrite <- Zle_Qle; lia|rewrite Hs; lra].
  rewrite (binary64_proper false _ (inject_Z raw)) by (rewrite Hs; ring).
  rewrite binary64_int by exact Hr. cbn [float_int mbind except_bind].
  by rewrite py_int_of_Q_inject.
Qed.


(** Decoding a raw value below [2^53] never raises. *)
Lemma scaled_ok d raw : (0 <= raw < 2 ^ 53)%Z -> exists v, scaled d raw = Ok v.
Proof.
  intros Hr. destruct (Qeq_bool (scale d) 1) eqn:E1.
  - rewrite scaled_one by done. eauto.
  - unfold scaled. rewrite (float_of_int_small raw Hr). cbn [mbind except_bind].
    rewrite E1. eauto.
Qed.

(** Decoding a raw value raises exactly when [float(raw)] overflows. *)
Lemma scaled_exc d raw e :
  scaled d raw = Exc e <-> e = OverflowError /\ (2 ^ 1024 - 2 ^ 970 <= Z.abs raw)%Z.
Proof.
  unfold scaled. destruct (float_of_int raw) as [x|e'] eqn:E; cbn [mbind except_bind]; split.
  - destruct (Qeq_bool (scale d) 1) eqn:E1; [|discriminate].
    destruct (fmul_unit_fin raw x (scale d) E (Qeq_bool_eq _ _ E1)) as [n Hn].
    rewrite Hn. discriminate.
  - intros [-> Hz]. rewrite float_of_int_overflow in E by exact Hz. discriminate.
  - intros [= <-]. exact (float_of_int_exc raw e' E).
  - intros [-> _]. by apply float_of_int_exc in E as [-> _].
Qed.



End CodecFloat.




(* ================================================================== *)
(** * Further properties of the bridge, the services and the simulator *)

(** Every definition placed in a request of [_build_read_plan(defs)] comes
    from [defs], has the request's register type and lies within the
    request's word range. *)
Theorem read_plan_covers (defs : list RegisterDefinition) rq d :
  rq ∈ build_read_plan defs -> d ∈ rq_registers rq ->
  d ∈ defs /\ register_type d = rq_register_type rq /\
  rq_start_address rq <= address d /\ address d + count d <= rq_start_address rq + rq_count rq.
Proof. exact (read_plan_cover_gen defs rq d). Qed.

Lemma read_block_length st rt a c : length (read_block st rt a c) = Z.to_nat c.
Proof. unfold read_block. by rewrite length_map, length_seq. Qed.

Lemma read_block_in_range st rt a c :
  words_in_range st -> Forall (fun w => 0 <= w <= 0xFFFF) (read_block st rt a c).
Proof.
  intros [Hi Hh]. unfold read_block. apply Forall_forall. intros w Hw.
  apply list_elem_of_fmap_1 in Hw as (o & -> & _).
  destruct (store_of st rt !! (a + Z.of_nat o)) as [w|] eqn:E; cbn; [|lia].
  destruct rt; cbn in E; [apply (Hi _ _ E)|apply (Hh _ _ E)].
Qed.

Lemma map_seq_shift {B} (f : nat -> B) i c :
  map f (seq i c) = map (fun o => f (i + o)%nat) (seq 0 c).
Proof.
  revert f i. induction c as [|c IH]; intros f i; [done|]. cbn [seq map].
  f_equal; [f_equal; lia|]. rewrite (IH f (S i)), (IH (fun o => f (i + o)%nat) 1%nat).
  apply map_ext. intros o. f_equal. lia.
Qed.

Lemma slice_read_block st rt start cnt a c :
  start <= a -> a + c <= start + cnt -> 0 <= c ->
  py_slice (read_block st rt start cnt) (a - start) (a - start + c) = read_block st rt a c.
Proof.
  intros H1 H2 H3. unfold py_slice. rewrite read_block_length.
  rewrite Z2Nat.id by lia. unfold py_norm.
  destruct (Z.ltb_spec (a - start) 0); [lia|]. destruct (Z.ltb_spec (a - start + c) 0); [lia|].
  rewrite Z.min_l by lia. rewrite Z.min_l by lia.
  replace (a - start + c - (a - start)) with c by lia.
  unfold read_block.
  replace (Z.to_nat cnt) with (Z.to_nat (a - start) + (Z.to_nat c + Z.to_nat (start + cnt - (a + c))))%nat by lia.
  rewrite !seq_app, !map_app.
  rewrite drop_app_length' by (rewrite length_map, length_seq; lia).
  rewrite take_app_length' by (rewrite length_map, length_seq; lia).
  rewrite map_seq_shift. apply map_ext. intros o. f_equal. f_equal. lia.
Qed.

Lemma words_to_bytes_ok ws :
  Forall (fun w => 0 <= w <= 0xFFFF) ws -> exists bs, words_to_bytes ws = Ok bs.
Proof.
  induction ws as [|w ws IH]; intros Hr; [by exists []|].
  inversion Hr as [|? ? Hw Hws]; subst. destruct (IH Hws) as [bs Hbs].
  cbn [words_to_bytes]. zcases. rewrite Hbs. cbn. eauto.
Qed.

Lemma decode_register_ok d ws :
  wf_def d -> Forall (fun w => 0 <= w <= 0xFFFF) ws -> length ws = Z.to_nat (count d) ->
  exists v, decode_register d ws = Ok v.
Proof.
  intros [Hc Ht] Hr Hl. unfold decode_register.
  destruct (data_type d).
  - destruct ws as [|w ws]; [cbn in Hl; lia|]. apply scaled_ok.
    inversion Hr; subst. lia.
  - destruct ws as [|w0 [|w1 ws]]; [cbn in Hl; lia|cbn in Hl; lia|]. apply scaled_ok.
    inversion Hr as [|? ? H0 Hr']; subst. inversion Hr' as [|? ? H1 _]; subst.
    rewrite Z.shiftl_mul_pow2 by lia. lia.
  - destruct (words_to_bytes_ok ws Hr) as [bs ->]. cbn. eauto.
Qed.

Lemma decode_block_sim st defs rt start cnt regs data :
  words_in_range st -> Forall (in_block defs rt start cnt) regs -> sim_entries st defs data ->
  exists data', decode_block start regs (read_block st rt start cnt) data = Ok data' /\
    sim_entries st defs data' /\
    (forall k, is_Some (data !! k) -> is_Some (data' !! k)) /\
    (forall d, d ∈ regs -> is_Some (data' !! key d)).
Proof.
  intros Hst. revert data. induction regs as [|d regs IH]; intros data Hregs Hdata.
  - exists data. split_and!; [done|done|done|]. intros d Hd. by apply elem_of_nil in Hd.
  - inversion Hregs as [|? ? Hd Hregs']; subst. destruct Hd as (Hdd & Hwf & Ht & H1 & H2).
    pose proof Hwf as [Hc _].
    cbn [decode_block]. rewrite slice_read_block by lia.
    rewrite read_block_length, Z2Nat.id, Z.eqb_refl by lia. cbn [negb].
    destruct (decode_register_ok d (read_block st rt (address d) (count d)) Hwf)
      as [v Hv]; [by apply read_block_in_range|by rewrite read_block_length|].
    rewrite Hv. cbn [mbind except_bind].
    destruct (IH (<[key d := Some v]> data)) as (data' & Hdec & Hs & Hmono & Hall);
      [done| |].
    + intros k x Hk. destruct (decide (k = key d)) as [->|Hne].
      * rewrite lookup_insert_eq in Hk. injection Hk as <-. exists d, v. subst rt. done.
      * rewrite lookup_insert_ne in Hk by congruence. by apply Hdata.
    + exists data'. split_and!; [done|done| |].
      * intros k Hk. apply Hmono. destruct (decide (k = key d)) as [->|Hne].
        -- rewrite lookup_insert_eq. eauto.
        -- by rewrite lookup_insert_ne by congruence.
      * intros d' Hd'. apply elem_of_cons in Hd' as [->|Hd']; [|by apply Hall].
        apply Hmono. rewrite lookup_insert_eq. eauto.
Qed.

Lemma read_blocks_sim (w : Wire) st defs todo plan data :
  reads_from w st -> words_in_range st ->
  Forall (fun rq => Forall (in_block defs (rq_register_type rq) (rq_start_address rq) (rq_count rq))
                           (rq_registers rq)) todo ->
  sim_entries st defs data ->
  exists data', read_blocks w todo plan data = (plan, Ok data') /\
    sim_entries st defs data' /\
    (forall k, is_Some (data !! k) -> is_Some (data' !! k)) /\
    (forall rq d, rq ∈ todo -> d ∈ rq_registers rq -> is_Some (data' !! key d)).
Proof.
  intros [_ Hw] Hst. revert data. induction todo as [|rq todo IH]; intros data Htodo Hdata.
  - exists data. split_and!; [done|done|done|]. intros rq d Hrq. by apply elem_of_nil in Hrq.
  - inversion Htodo as [|? ? Hrq Htodo']; subst.
    cbn [read_blocks]. rewrite Hw.
    destruct (decode_block_sim st defs (rq_register_type rq) (rq_start_address rq) (rq_count rq)
                (rq_registers rq) data Hst Hrq Hdata) as (data1 & Hdec & Hs1 & Hmono1 & Hall1).
    rewrite Hdec.
    destruct (IH data1 Htodo' Hs1) as (data2 & Hrb & Hs2 & Hmono2 & Hall2).
    exists data2. split_and!; [done|done|auto|].
    intros rq' d Hrq' Hd. apply elem_of_cons in Hrq' as [->|Hrq']; [|by eapply Hall2].
    auto.
Qed.

Lemma NoDup_key_inj (defs : list RegisterDefinition) d d' :
  NoDup (map key defs) -> d ∈ defs -> d' ∈ defs -> key d = key d' -> d = d'.
Proof.
  induction defs as [|x defs IH]; intros Hnd Hd Hd' Hk; [by apply elem_of_nil in Hd|].
  cbn in Hnd. apply NoDup_cons in Hnd as [Hx Hnd].
  apply elem_of_cons in Hd as [->|Hd]; apply elem_of_cons in Hd' as [->|Hd']; auto.
  - exfalso. apply Hx. rewrite Hk. by apply list_elem_of_fmap_2.
  - exfalso. apply Hx. rewrite <- Hk. by apply list_elem_of_fmap_2.
Qed.

Lemma words_to_bytes_exc ws e : words_to_bytes ws = Exc e -> e = OverflowError.
Proof.
  induction ws as [|w ws IH]; cbn [words_to_bytes]; [discriminate|].
  destruct (_ && _); [|congruence].
  destruct (words_to_bytes ws); cbn; [discriminate|auto].
Qed.

(** [_decode_register] never raises a transport failure. *)

Lemma decode_not_transport d ws e :
  decode_register d ws = Exc e -> is_transport_failure e = false.
Proof.
  unfold decode_register. destruct (data_type d).
  - destruct ws; [by intros [= <-]|]. by intros [-> _]%scaled_exc.
  - destruct ws as [|? [|? ?]]; [by intros [= <-]..|]. by intros [-> _]%scaled_exc.
  - destruct (words_to_bytes ws) eqn:E; cbn; [discriminate|].
    intros [= <-]. by apply words_to_bytes_exc in E as ->.
Qed.

Lemma single_read_sim (wire : nat -> Wire) st d :
  reads_from (wire 1%nat) st ->
  async_read_register wire d =
    ([Attempt 1], decode_register d (read_block st (register_type d) (address d) (count d))).
Proof.
  intros [Hc Hw]. unfold async_read_register, call_with_retry. cbn [retry_loop MAX_RETRY_ATTEMPTS].
  unfold read_register_once. rewrite Hc, Hw. cbn.
  destruct (decode_register _ _) as [v|e] eqn:E; [done|].
  apply decode_not_transport in E. rewrite E. reflexivity.
Qed.

(** Against the simulator [st] (words in 16 bits), the plan of
    well-formed definitions with distinct keys is read in one attempt
    without pruning; the result maps exactly keys of [defs], each to the
    decoding of the simulator words of its definition, and a single read
    of any definition returns that same value. *)
Theorem simulator_bulk_read (wire : nat -> Wire) st defs :
  reads_from (wire 1%nat) st -> words_in_range st -> Forall wf_def defs -> NoDup (map key defs) ->
  exists data,
    async_read_data wire (build_read_plan defs) = (build_read_plan defs, [Attempt 1], Ok data) /\
    (forall k x, data !! k = Some x -> k ∈ map key defs) /\
    (forall d, d ∈ defs -> exists v,
       decode_register d (read_block st (register_type d) (address d) (count d)) = Ok v /\
       data !! key d = Some (Some v) /\
       async_read_register wire d = ([Attempt 1], Ok v)).
Proof.
  intros Hr Hst Hwf Hnd. set (plan := build_read_plan defs).
  destruct (read_blocks_sim (wire 1%nat) st defs plan plan ∅ Hr Hst) as (data & Hrb & Hs & _ & Hall).
  - apply Forall_forall. intros rq Hrq. apply Forall_forall. intros d Hd.
    destruct (read_plan_cover_gen defs rq d Hrq Hd) as (Hdd & Ht & H1 & H2).
    split_and!; [done| |done|done|done].
    by eapply Forall_forall in Hwf.
  - intros k x Hk. by rewrite lookup_empty in Hk.
  - exists data. split_and!.
    + destruct Hr as [Hc _]. unfold async_read_data, call_with_retry.
      cbn [retry_loop MAX_RETRY_ATTEMPTS]. unfold async_read_data_once. rewrite Hc. cbn [negb].
      rewrite Hrb. done.
    + intros k x Hk. destruct (Hs k x Hk) as (d & v & Hd & <- & _).
      by apply list_elem_of_fmap_2.
    + intros d Hd.
      assert (Hperm : concat (map rq_registers plan) ≡ₚ defs).
      { unfold plan, build_read_plan. rewrite sort_by_perm, map_app, concat_app, !sweep_registers.
        cbn. unfold items_of. rewrite !sort_by_perm. apply filter_type_partition. }
      rewrite <- Hperm in Hd. apply list_elem_of_In, in_concat in Hd as (regs & Hregs & Hd).
      apply in_map_iff in Hregs as (rq & <- & Hrq).
      apply list_elem_of_In in Hrq, Hd.
      destruct (Hall rq d Hrq Hd) as [x Hx].
      destruct (Hs _ _ Hx) as (d' & v & Hd' & Hk & -> & Hv).
      assert (Hdd : d ∈ defs) by (rewrite <- Hperm; by apply (elem_concat_map _ rq)).
      assert (d' = d) as -> by (by apply (NoDup_key_inj defs)).
      exists v. split_and!; [done|done|]. rewrite (single_read_sim wire st d Hr). by rewrite Hv.
Qed.

Lemma land_ffff_range v : 0 <= Z.land v 0xFFFF <= 0xFFFF.
Proof.
  change 0xFFFF with (Z.ones 16). rewrite Z.land_ones by lia.
  pose proof (Z.mod_pos_bound v (2 ^ 16) ltac:(lia)). change (Z.ones 16) with 65535.
  change (2 ^ 16) with 65536 in *. lia.
Qed.

Lemma bytes_to_words_range (n : nat) bs :
  (length bs <= n)%nat -> Forall (fun x => 0 <= x < 256) bs -> Forall in16 (bytes_to_words bs).
Proof.
  revert bs. induction n as [|n IH]; intros bs Hl Hb.
  - destruct bs; [constructor|cbn in Hl; lia].
  - destruct bs as [|b0 [|b1 bs]]; cbn [bytes_to_words].
    + constructor.
    + inversion Hb; subst. constructor; [unfold in16; lia|constructor].
    + inversion Hb as [|? ? Hb0 Hb']; subst. inversion Hb' as [|? ? Hb1 Hbs]; subst.
      constructor; [unfold in16; lia|]. apply IH; [cbn in Hl; lia|done].
Qed.

Lemma encode_value_range d v ws : encode_value d v = Ok ws -> Forall in16 ws.
Proof.
  unfold encode_value. intros H. destruct v as [|b|z|q|s].
  1: injection H as <-; apply Forall_forall; intros x Hx;
    apply list_elem_of_In, repeat_spec in Hx; unfold in16; lia.
  all: destruct (data_type d).
  all: try (apply bind_Ok in H as (n & _ & H); apply bind_Ok in H as (raw & _ & H);
    zcases_in H; injection H as <-; repeat constructor; first [lia|apply land_ffff_range]).
  all: apply bind_Ok in H as (text & _ & H); apply bind_Ok in H as (data & Hdata & H);
    destruct (encode_text_ok _ _ _ Hdata) as (Hbytes & _);
    destruct (_ <? _); [discriminate H|]; injection H as <-;
    eapply bytes_to_words_range; [reflexivity|];
    apply Forall_app; split; [done|]; apply Forall_forall; intros x Hx;
    apply list_elem_of_In, repeat_spec in Hx; lia.
Qed.

Lemma store_words_gen (m : gmap Z Z) a j ws b :
  foldl (fun m' ow => <[a + Z.of_nat ow.1 := ow.2]> m') m (zip (seq j (length ws)) ws) !! b =
  if (a + Z.of_nat j <=? b) && (b <? a + Z.of_nat j + Z.of_nat (length ws))
  then ws !! Z.to_nat (b - a - Z.of_nat j) else m !! b.
Proof.
  revert m j. induction ws as [|w ws IH]; intros m j.
  - cbn. zcases; done.
  - cbn [length seq zip foldl]. rewrite IH. cbn [fst snd].
    destruct (Z.eqb_spec b (a + Z.of_nat j)) as [->|Hne].
    + zcases. rewrite lookup_insert_eq.
      replace (Z.to_nat (a + Z.of_nat j - a - Z.of_nat j)) with 0%nat by lia. done.
    + rewrite lookup_insert_ne by congruence.
      zcases; try done.
      all: replace (Z.to_nat (b - a - Z.of_nat j)) with (S (Z.to_nat (b - a - Z.of_nat (S j)))) by lia.
      all: done.
Qed.

Lemma store_words_lookup (m : gmap Z Z) a ws b :
  store_words m a ws !! b =
  if (a <=? b) && (b <? a + Z.of_nat (length ws)) then ws !! Z.to_nat (b - a) else m !! b.
Proof.
  unfold store_words. rewrite store_words_gen. cbn. rewrite !Z.add_0_r, Z.sub_0_r. done.
Qed.

Lemma store_words_range (m : gmap Z Z) a ws :
  map_Forall (fun _ w => in16 w) m -> Forall in16 ws -> map_Forall (fun _ w => in16 w) (store_words m a ws).
Proof.
  intros Hm Hws b w Hb. rewrite store_words_lookup in Hb.
  destruct (_ && _).
  - eapply Forall_forall; [exact Hws|]. by eapply list_elem_of_lookup_2.
  - by eapply Hm.
Qed.

Lemma read_block_store_words st rt m a ws :
  store_of st rt = store_words m a ws ->
  read_block st rt a (Z.of_nat (length ws)) = ws.
Proof.
  intros Hs. unfold read_block. rewrite Hs, Nat2Z.id.
  apply list_eq. intros i. rewrite lookup_map_list.
  destruct (decide (i < length ws)%nat) as [Hi|Hi].
  - rewrite lookup_seq_lt by done. cbn. rewrite store_words_lookup. zcases.
    replace (Z.to_nat (a + Z.of_nat i - a)) with i by lia.
    destruct (ws !! i) eqn:E; [done|]. apply lookup_ge_None in E. lia.
  - rewrite lookup_seq_ge by lia. cbn. symmetry. apply lookup_ge_None. lia.
Qed.

Lemma apply_value_range st k v :
  words_in_range st -> words_in_range (apply_value st k v).1.
Proof.
  intros [Hi Hh]. unfold apply_value.
  destruct (dict_get k (definitions_by_key st)) as [d|]; [|by split].
  destruct (encode_value d v) as [ws|e] eqn:E; [|by split].
  apply encode_value_range in E.
  destruct (register_type d); cbn; split; try done; by apply store_words_range.
Qed.

Lemma apply_values_range st updates :
  words_in_range st -> words_in_range (apply_values st updates).1.
Proof.
  revert st. induction updates as [|[k v] updates IH]; intros st Hst; [done|].
  cbn [apply_values]. pose proof (apply_value_range st k v Hst) as H.
  destruct (apply_value st k v) as [st' [e|]]; cbn in *; [done|by apply IH].
Qed.

Lemma write_register_range st a v :
  words_in_range st -> words_in_range (write_register st a v).1.
Proof.
  intros [Hi Hh]. unfold write_register.
  assert (Hst : words_in_range (set_stores st (input_registers st)
                  (<[a := Z.land v 0xFFFF]> (holding_registers st)))).
  { split; [done|]. cbn. apply map_Forall_insert_2; [apply land_ffff_range|done]. }
  destruct (dict_get (Holding, a) (definitions_by_address st)) as [d|]; [|done].
  cbn [write_actions set_stores].
  destruct (dict_get (key d) (write_actions st)) as [[|x acts]|]; [done| |done].
  destruct (dict_get (Z.land v 0xFFFF) (x :: acts)) as [[|y ups]|]; [done| |done].
  by apply apply_values_range.
Qed.

(** Every word the simulator stores is a 16-bit value: after
    [create_state] and any sequence of Modbus writes. *)
Theorem simulator_words_16bit sc st writes :
  create_state sc = Ok st -> words_in_range (write_all st writes).
Proof.
  intros Hc.
  assert (H0 : words_in_range st).
  { unfold create_state, new_state in Hc.
    set (st0 := reset _) in Hc.
    assert (Hz : words_in_range st0).
    { split; intros a w Hw; [apply (reset_store_zero _ Input) in Hw|apply (reset_store_zero _ Holding) in Hw];
        unfold in16; lia. }
    destruct (sc_values sc) as [|u us].
    - by injection Hc as <-.
    - pose proof (apply_values_range st0 (u :: us) Hz) as H.
      destruct (apply_values st0 (u :: us)) as [st' [e|]]; [discriminate|].
      injection Hc as <-. done. }
  clear Hc. unfold write_all. revert st H0.
  induction writes as [|[a v] writes IH]; intros st Hst; [done|].
  cbn [foldl]. apply (IH _ (write_register_range st a v Hst)).
Qed.

(** A holding write to an address with no write actions stores
    [value & 0xFFFF] there, raises nothing, and leaves the input store and
    every other holding address unchanged. *)
Theorem write_register_masks st a v :
  match dict_get (Holding, a) (definitions_by_address st) with
  | None => True
  | Some d => dict_get (key d) (write_actions st) = None
  end ->
  (write_register st a v).2 = None /\
  read_block (write_register st a v).1 Holding a 1 = [v mod 65536] /\
  input_registers (write_register st a v).1 = input_registers st /\
  (forall b, b <> a -> holding_registers (write_register st a v).1 !! b = holding_registers st !! b).
Proof.
  intros Hact.
  assert (Hm : Z.land v 0xFFFF = v mod 65536).
  { change 0xFFFF with (Z.ones 16). rewrite Z.land_ones by lia. reflexivity. }
  assert (Hw : write_register st a v =
    (set_stores st (input_registers st) (<[a := Z.land v 0xFFFF]> (holding_registers st)), None)).
  { unfold write_register. destruct (dict_get (Holding, a) (definitions_by_address st)); [|done].
    cbn [write_actions set_stores]. by rewrite Hact. }
  rewrite Hw. cbn. split_and!; [done| |done|].
  - unfold read_block. cbn [store_of set_stores holding_registers]. change (seq 0 (Z.to_nat 1)) with [0%nat]. cbn [map]. replace (a + Z.of_nat 0) with a by lia. rewrite lookup_insert_eq. cbn. by rewrite Hm.
  - intros b Hb. by rewrite lookup_insert_ne by congruence.
Qed.

(** Applying a value [v] to a known key stores the encoded words at the
    definition's address; a bridge read of the definition against the new
    state then returns [decode(encode(v))] in one attempt. *)
Theorem simulator_value_read_back st k v d ws :
  dict_get k (definitions_by_key st) = Some d -> encode_value d v = Ok ws ->
  Z.of_nat (length ws) = count d ->
  exists st', apply_value st k v = (st', None) /\
    read_block st' (register_type d) (address d) (count d) = ws /\
    async_read_register (simulator_wire st') d = ([Attempt 1], roundtrip d v).
Proof.
  intros Hk Henc Hlen. unfold apply_value. rewrite Hk, Henc.
  set (st' := match register_type d with
              | Input => set_stores st (store_words (input_registers st) (address d) ws) (holding_registers st)
              | Holding => set_stores st (input_registers st) (store_words (holding_registers st) (address d) ws)
              end).
  assert (Hrb : read_block st' (register_type d) (address d) (count d) = ws).
  { rewrite <- Hlen. apply (read_block_store_words _ _ (store_of st (register_type d))).
    unfold st'. by destruct (register_type d). }
  exists st'. split; [by destruct (register_type d)|]. split; [done|].
  rewrite (single_read_sim (simulator_wire st') st' d) by (split; [done|intros; done]).
  rewrite Hrb. unfold roundtrip. by rewrite Henc.
Qed.

Section RegistryProofs.

Context {State : Type}.

Implicit Types (reg : @registry State) (st : State).

Lemma registry_unregister_get reg h p u h' p' u' :
  registry_get (registry_unregister reg h p u) h' p' u' =
  if decide ((h', p', u') = (h, p, u)) then None else registry_get reg h' p' u'.
Proof.
  unfold registry_unregister, registry_get. unfold registry in *.
  destruct (reg !! (h, p)) as [b|] eqn:Hb.
  - destruct (decide (b = ∅)) as [->|Hne].
    + case_decide as Heq; [|done]. injection Heq as -> -> ->. rewrite Hb. by rewrite decide_True.
    + destruct (decide (delete u b = ∅)) as [Hd|Hd].
      * case_decide as Heq.
        -- injection Heq as -> -> ->. by rewrite lookup_delete_eq.
        -- destruct (decide ((h', p') = (h, p))) as [Hhp|Hhp].
           ++ injection Hhp as -> ->. rewrite lookup_delete_eq, Hb, decide_False by done.
              assert (u' <> u) by congruence.
              by rewrite <- (lookup_delete_ne b u u'), Hd, lookup_empty by congruence.
           ++ by rewrite lookup_delete_ne by congruence.
      * case_decide as Heq.
        -- injection Heq as -> -> ->. rewrite lookup_insert_eq, decide_False by done.
           apply lookup_delete_eq.
        -- destruct (decide ((h', p') = (h, p))) as [Hhp|Hhp].
           ++ injection Hhp as -> ->. rewrite lookup_insert_eq, Hb, !decide_False by done.
              apply lookup_delete_ne. congruence.
           ++ by rewrite lookup_insert_ne by congruence.
  - case_decide as Heq; [|done]. injection Heq as -> -> ->. by rewrite Hb.
Qed.

Lemma register_get_cases reg h p u st :
  match registry_get reg h p u with
  | Some _ => registry_register reg h p u st = (reg, Some (ValueError "Virtual wallbox already registered"))
  | None => exists reg', registry_register reg h p u st = (reg', None) /\
      registry_get reg' h p u = Some st /\
      (forall h' p' u', (h', p', u') <> (h, p, u) -> registry_get reg' h' p' u' = registry_get reg h' p' u')
  end.
Proof.
  unfold registry_get, registry_register. unfold registry in *.
  destruct (reg !! (h, p)) as [b|] eqn:Hb; cbn [default id].
  - destruct (decide (b = ∅)) as [->|Hne].
    + rewrite lookup_empty. eexists. split; [done|]. split.
      * rewrite lookup_insert_eq, decide_False by apply insert_non_empty. apply lookup_insert_eq.
      * intros h' p' u' Hne'. destruct (decide ((h', p') = (h, p))) as [Hhp|Hhp].
        -- injection Hhp as -> ->. rewrite lookup_insert_eq, Hb, decide_False, decide_True by (done || apply insert_non_empty).
           rewrite lookup_insert_ne by congruence. apply lookup_empty.
        -- by rewrite lookup_insert_ne by congruence.
    + destruct (b !! u) as [s|] eqn:Hu; [done|]. eexists. split; [done|]. split.
      * rewrite lookup_insert_eq, decide_False by apply insert_non_empty. apply lookup_insert_eq.
      * intros h' p' u' Hne'. destruct (decide ((h', p') = (h, p))) as [Hhp|Hhp].
        -- injection Hhp as -> ->. rewrite lookup_insert_eq, Hb, !decide_False by (done || apply insert_non_empty).
           apply lookup_insert_ne. congruence.
        -- by rewrite lookup_insert_ne by congruence.
  - rewrite lookup_empty. eexists. split; [done|]. split.
    + rewrite lookup_insert_eq, decide_False by apply insert_non_empty. apply lookup_insert_eq.
    + intros h' p' u' Hne'. destruct (decide ((h', p') = (h, p))) as [Hhp|Hhp].
      * injection Hhp as -> ->. rewrite lookup_insert_eq, Hb, decide_False by apply insert_non_empty.
        rewrite lookup_insert_ne by congruence. apply lookup_empty.
      * by rewrite lookup_insert_ne by congruence.
Qed.

(** [register] raises [ValueError] and changes nothing when the unit is
    already registered at the endpoint; otherwise [get] then finds the
    new state there and every other (host, port, unit) is unchanged. *)
Theorem registry_register_get reg h p u st :
  match registry_get reg h p u with
  | Some _ => registry_register reg h p u st = (reg, Some (ValueError "Virtual wallbox already registered"))
  | None => exists reg', registry_register reg h p u st = (reg', None) /\
      registry_get reg' h p u = Some st /\
      (forall h' p' u', (h', p', u') <> (h, p, u) -> registry_get reg' h' p' u' = registry_get reg h' p' u')
  end.
Proof. exact (register_get_cases reg h p u st). Qed.

(** [register_virtual_wallbox] for a unit not yet registered: the body
    runs on a registry holding the state, and afterwards the unit is gone
    while every other entry is as the body left it. *)
Theorem with_virtual_wallbox_cleanup reg h p u st body :
  registry_get reg h p u = None ->
  exists reg1,
    registry_get reg1 h p u = Some st /\
    (forall h' p' u', (h', p', u') <> (h, p, u) -> registry_get reg1 h' p' u' = registry_get reg h' p' u') /\
    with_virtual_wallbox reg h p u st body = (registry_unregister (body reg1).1 h p u, (body reg1).2) /\
    registry_get (with_virtual_wallbox reg h p u st body).1 h p u = None /\
    (forall h' p' u', (h', p', u') <> (h, p, u) ->
       registry_get (with_virtual_wallbox reg h p u st body).1 h' p' u' = registry_get (body reg1).1 h' p' u').
Proof.
  unfold registry in *. intros Hnone. pose proof (register_get_cases reg h p u st) as Hr. rewrite Hnone in Hr.
  destruct Hr as (reg1 & Hreg & Hget & Hother).
  assert (Hw : with_virtual_wallbox reg h p u st body = (registry_unregister (body reg1).1 h p u, (body reg1).2)).
  { unfold with_virtual_wallbox. rewrite Hreg. by destruct (body reg1). }
  exists reg1. split_and!; [done|done|done| |].
  - rewrite Hw. cbn. rewrite registry_unregister_get. by rewrite decide_True.
  - intros h' p' u' Hne. rewrite Hw. cbn. rewrite registry_unregister_get. by rewrite decide_False.
Qed.

(** A body that leaves the registry alone: opening and closing
    [register_virtual_wallbox] gives back the registry it started from,
    and the body's exception. *)
Theorem with_virtual_wallbox_restores reg h p u st (res : option exn) :
  no_empty_bucket reg -> registry_get reg h p u = None ->
  with_virtual_wallbox reg h p u st (fun r => (r, res)) = (reg, res).
Proof.
  intros Hne Hnone. unfold with_virtual_wallbox, registry_register.
  unfold registry_get in Hnone. unfold registry in *.
  destruct (reg !! (h, p)) as [b|] eqn:Hb; cbn [default id].
  - assert (Hbne : b <> ∅) by (by apply (Hne (h, p))).
    rewrite decide_False in Hnone by done. rewrite Hnone. cbn.
    unfold registry_unregister; unfold registry in *. rewrite lookup_insert_eq, decide_False by apply insert_non_empty.
    rewrite delete_insert_id by done. rewrite decide_False by done.
    rewrite insert_insert_eq. by rewrite insert_id.
  - rewrite lookup_empty. cbn. unfold registry_unregister; unfold registry in *.
    rewrite lookup_insert_eq, decide_False by apply insert_non_empty.
    rewrite delete_insert_id by apply lookup_empty. rewrite decide_True by done.
    rewrite delete_insert_eq. by rewrite delete_id.
Qed.

Lemma no_empty_bucket_op reg op : no_empty_bucket reg -> no_empty_bucket (apply_registry_op reg op).
Proof.
  intros Hne. destruct op as [h p u s|h p u]; cbn; unfold no_empty_bucket in *; unfold registry in *.
  - unfold registry_register; unfold registry in *. case_match; cbn; [done|].
    apply map_Forall_insert_2; [apply insert_non_empty|done].
  - unfold registry_unregister; unfold registry in *. destruct (reg !! (h, p)) as [b|]; [|done].
    destruct (decide (b = ∅)); [done|]. destruct (decide (delete u b = ∅)).
    + by apply map_Forall_delete.
    + by apply map_Forall_insert_2.
Qed.

(** After any sequence of [register]/[unregister] calls,
    [has_endpoint(host, port)] holds exactly when some unit is registered
    at that endpoint. *)
Theorem registry_endpoint_iff_registered (ops : list (@registry_op State)) h p :
  has_endpoint (run_registry ops) h p = true <->
  exists u s, registry_get (run_registry ops) h p u = Some s.
Proof.
  assert (Hne : no_empty_bucket (run_registry ops)).
  { unfold run_registry.
    assert (H0 : no_empty_bucket (∅ : @registry State))
      by (unfold no_empty_bucket, registry; apply map_Forall_empty).
    revert H0. generalize (∅ : @registry State) as r0.
    induction ops as [|op ops IH]; intros r0 H0; [done|].
    cbn [foldl]. apply IH. by apply no_empty_bucket_op. }
  revert Hne. generalize (run_registry ops) as r. intros r Hne.
  unfold has_endpoint, registry_get, no_empty_bucket in *. unfold registry in *. rewrite bool_decide_eq_true.
  destruct (r !! (h, p)) as [b|] eqn:Hb.
  - assert (Hbne : b <> ∅) by (by apply (Hne (h, p))).
    split; [|intros; done]. intros _. destruct (map_choose b Hbne) as (u & s & Hu).
    exists u, s. by rewrite decide_False.
  - split; [by intros []|]. by intros (u & s & ?).
Qed.

End RegistryProofs.

Lemma prefix_app_l (n a s : string) : String.prefix n a = true -> String.prefix n (a +:+ s) = true.
Proof.
  revert a. induction n as [|c n IH]; intros a H; [by destruct (a +:+ s)%string|].
  destruct a as [|c' a]; cbn in *; [done|]. destruct (Ascii.ascii_dec c c'); [|done].
  change (String c' a +:+ s)%string with (String c' (a +:+ s)). cbn. destruct (Ascii.ascii_dec c c'); [by apply IH|done].
Qed.

Lemma str_contains_app_l (n a s : string) : str_contains n a = true -> str_contains n (a +:+ s) = true.
Proof.
  induction a as [|c a IH]; intros H; simpl in H |- *.
  - destruct n as [|c n]; simpl in H; [by destruct s|done].
  - apply orb_true_iff in H as [H|H].
    + apply orb_true_iff. left. by apply (prefix_app_l n (String c a) s).
    + apply orb_true_iff. right. by apply IH.
Qed.

Lemma str_contains_app_r (n p s : string) : str_contains n s = true -> str_contains n (p +:+ s) = true.
Proof.
  induction p as [|c p IH]; intros H; [done|]. cbn. apply orb_true_iff. right. by apply IH.
Qed.

Lemma bad_keyword_message_unsupported (q : string) :
  is_keyword_unsupported (q +:+ "() got an unexpected keyword argument '" +:+ "device_id" +:+ "'")%string "device_id" = true.
Proof.
  unfold is_keyword_unsupported. apply orb_true_iff. left. apply andb_true_iff.
  split; apply str_contains_app_r; vm_compute; reflexivity.
Qed.

(** With a client method whose unit parameter is keyword-only [unit]
    (the simulator's client), [_invoke_with_unit] first tries
    [device_id], is rejected, then calls with [unit] and returns what the
    method does. *)
Theorem invoke_with_unit_kwonly_unit {A} (q : string) (npos : N) (body : call_result A) (base : list string) :
  "device_id"%string ∉ base -> "unit"%string ∉ base -> (forall m, body <> RaisedTypeError m) ->
  invoke_with_unit (kwonly_unit_method q npos body) base =
  ([UnitKeyword "device_id"; UnitKeyword "unit"],
   match body with Returned a => Ok a | RaisedOther e => Exc e | RaisedTypeError m => Exc (WebastoModbusError m) end).
Proof.
  intros Hd Hu Hb. unfold invoke_with_unit, UNIT_KEYWORDS. cbn [try_keywords].
  rewrite (bool_decide_eq_false_2 _ Hd). cbn [kwonly_unit_method String.eqb Ascii.eqb Bool.eqb andb].
  rewrite bad_keyword_message_unsupported.
  rewrite (bool_decide_eq_false_2 _ Hu). cbn [kwonly_unit_method].
  replace (String.eqb "unit" "unit") with true by reflexivity.
  destruct body as [a|m|e]; [done| |done]. by destruct (Hb m).
Qed.

(** When keyword arguments are passed (as the reads pass [count=]), the
    method is never called with the unit id as a positional argument. *)
Theorem invoke_with_unit_kwargs_no_positional {A} (method : unit_arg -> call_result A) (base : list string) :
  base <> [] -> UnitPositional ∉ (invoke_with_unit method base).1.
Proof.
  intros Hne. unfold invoke_with_unit.
  assert (Hk : forall kws, UnitPositional ∉ (try_keywords method base kws).1).
  { induction kws as [|kw kws IH]; cbn; [apply not_elem_of_nil|].
    case_bool_decide; [done|].
    destruct (method (UnitKeyword kw)) as [a|m|e]; cbn; try (rewrite list_elem_of_singleton; done).
    destruct (is_keyword_unsupported m kw); cbn; [|rewrite list_elem_of_singleton; done].
    destruct (try_keywords method base kws) as [calls r]. cbn in IH |- *.
    rewrite elem_of_cons. intros [?|?]; [done|done]. }
  specialize (Hk UNIT_KEYWORDS). destruct (try_keywords method base UNIT_KEYWORDS) as [calls [r|]]; [done|].
  by destruct base.
Qed.

(** A [TypeError] that does not name the [device_id] keyword stops the
    negotiation after one call and surfaces as [WebastoModbusError]. *)
Theorem invoke_with_unit_typeerror_stops {A} (method : unit_arg -> call_result A) (base : list string) (m : string) :
  "device_id"%string ∉ base ->
  method (UnitKeyword "device_id") = RaisedTypeError m -> is_keyword_unsupported m "device_id" = false ->
  invoke_with_unit method base = ([UnitKeyword "device_id"], Exc (WebastoModbusError m)).
Proof.
  intros Hd Hm Hu. unfold invoke_with_unit, UNIT_KEYWORDS. cbn [try_keywords].
  by rewrite (bool_decide_eq_false_2 _ Hd), Hm, Hu.
Qed.

(** When every unit keyword is rejected as unsupported, a call without
    keyword arguments falls back to passing the unit positionally, and a
    call with keyword arguments raises [WebastoModbusError] "Modbus
    client does not support device_id/unit/slave parameter". *)
Theorem invoke_with_unit_positional_fallback {A} (method : unit_arg -> call_result A) (base : list string) :
  Forall (fun kw => (kw ∉ base) /\ (exists m, method (UnitKeyword kw) = RaisedTypeError m /\ is_keyword_unsupported m kw = true)) UNIT_KEYWORDS ->
  invoke_with_unit method base =
  match base with
  | [] => (map UnitKeyword UNIT_KEYWORDS ++ [UnitPositional],
           match method UnitPositional with
           | Returned a => Ok a
           | RaisedOther e => Exc e
           | RaisedTypeError m =>
               if is_positional_only_error m then Exc (WebastoModbusError UNSUPPORTED_UNIT_PARAMETER)
               else Exc (WebastoModbusError m)
           end)
  | _ :: _ => (map UnitKeyword UNIT_KEYWORDS, Exc (WebastoModbusError UNSUPPORTED_UNIT_PARAMETER))
  end.
Proof.
  intros Hall.
  assert (Hk : forall kws, Forall (fun kw => (kw ∉ base) /\ (exists m, method (UnitKeyword kw) = RaisedTypeError m /\ is_keyword_unsupported m kw = true)) kws ->
                try_keywords method base kws = (map UnitKeyword kws, None)).
  { induction kws as [|kw kws IH]; intros Hf; [done|]. inversion Hf as [|? ? [Hn (m & Hm & Hu)] Hf']; subst.
    cbn. rewrite (bool_decide_eq_false_2 _ Hn), Hm, Hu. by rewrite IH. }
  unfold invoke_with_unit. rewrite (Hk _ Hall). by destruct base.
Qed.

Lemma py_min_spec a b : py_min a b = Z.min a b.
Proof. unfold py_min. destruct (Z.ltb_spec b a); lia. Qed.

Lemma py_max_spec a b : py_max a b = Z.max a b.
Proof. unfold py_max. destruct (Z.ltb_spec a b); lia. Qed.

(** [get_max_current_for_variant] never raises: 16 A for "11kw", and
    32 A (the default variant) for every other variant or none. *)
Theorem get_max_current_for_variant_total (variant : option string) :
  get_max_current_for_variant variant =
  Ok (if bool_decide (variant = Some "11kw"%string) then 16 else 32).
Proof.
  unfold get_max_current_for_variant. destruct variant as [v|]; cbn; [|done].
  case_bool_decide as Hv.
  - injection Hv as ->. reflexivity.
  - unfold VARIANT_MAX_CURRENT. cbn.
    rewrite decide_False by congruence.
    destruct (decide (v = "22kw"%string)); done.
Qed.

Ltac get_register_as k d Hd :=
  let g := fresh "g" in
  remember (get_register k) as g eqn:Hd; vm_compute in Hd;
  match type of Hd with _ = Some ?r => set (d := r) in * end.

(** [set_current] writes [max(0, min(max_current, 32, amps))] to
    [set_current_a] (holding 5004), and sends the written-value signal
    only if the write succeeded. *)
Theorem service_set_current_clamped wire mc amps :
  exists d, get_register "set_current_a" = Some d /\ key d = "set_current_a"%string /\
    address d = 5004 /\ writable d = true /\
    service_set_current wire mc amps =
      (let value := Z.max 0 (Z.min (Z.min mc 32) amps) in
       let '(evs, err) := service_write wire d value in
       (evs, match err with None => [("set_current_a"%string, value)] | Some _ => [] end, err)).
Proof.
  unfold service_set_current. get_register_as "set_current_a"%string d Hd. rewrite Hd.
  exists d. split_and!; [done|done|done|done|].
  unfold clamp. cbn [min_value max_value key d py_or Z.eqb]. rewrite !py_min_spec, !py_max_spec.
  cbv zeta. by destruct (service_write wire d _) as [evs [e|]].
Qed.

(** [set_failsafe] writes [max(6, min(max_current, 32, amps))] to
    [failsafe_current_a] (2000); only after that write succeeds, and only
    when [timeout_s] is given, it writes [max(6, min(120, timeout_s))] to
    [failsafe_timeout_s] (2002). *)
Theorem service_set_failsafe_clamped wire mc amps timeout_s :
  exists da dt, get_register "failsafe_current_a" = Some da /\ address da = 2000 /\ writable da = true /\
    get_register "failsafe_timeout_s" = Some dt /\ address dt = 2002 /\ writable dt = true /\
    service_set_failsafe wire mc amps timeout_s =
      (let amps_value := Z.max 6 (Z.min (Z.min mc 32) amps) in
       let '(evs1, err1) := service_write wire da amps_value in
       match err1 with
       | Some e => (evs1, [], Some e)
       | None =>
           match timeout_s with
           | None => (evs1, [("failsafe_current_a"%string, amps_value)], None)
           | Some t =>
               let timeout_value := Z.max 6 (Z.min 120 t) in
               let '(evs2, err2) := service_write wire dt timeout_value in
               (evs1 ++ evs2,
                ("failsafe_current_a"%string, amps_value) ::
                  match err2 with None => [("failsafe_timeout_s"%string, timeout_value)] | Some _ => [] end,
                err2)
           end
       end).
Proof.
  unfold service_set_failsafe.
  get_register_as "failsafe_current_a"%string da Hda. get_register_as "failsafe_timeout_s"%string dt Hdt.
  rewrite Hda, Hdt.
  exists da, dt. split_and!; try done.
  unfold clamp. cbn [min_value max_value key da dt py_or Z.eqb]. rewrite !py_min_spec, !py_max_spec.
  cbv zeta. destruct (service_write wire da _) as [evs1 [e|]]; [done|].
  destruct timeout_s as [t|]; [|done].
  rewrite ?py_min_spec, ?py_max_spec. by destruct (service_write wire dt _) as [evs2 [e|]].
Qed.

Lemma py_minQ_inject (a b : Z) : py_minQ (inject_Z a) (inject_Z b) = inject_Z (Z.min a b).
Proof.
  unfold py_minQ. destruct (Qle_bool (inject_Z a) (inject_Z b)) eqn:H.
  - apply Qle_bool_iff in H. rewrite <- Zle_Qle in H. f_equal. lia.
  - assert (~ (inject_Z a <= inject_Z b)%Q) as Hn by (by rewrite <- Qle_bool_iff, H).
    rewrite <- Zle_Qle in Hn. f_equal. lia.
Qed.

(** A number entity created with a variant maximum of at least 6 A writes
    [min(max(round(value), lo), hi)], within [lo, hi]: [lo] is the
    register's minimum and [hi] is 120 for the fail-safe timeout and
    [min(32, variant maximum)] for the two current registers. *)
Theorem number_entity_write_in_bounds wire d mc value :
  d ∈ NUMBER_REGISTERS -> 6 <= mc ->
  exists lo hi w,
    min_value d = Some lo /\
    hi = (if bool_decide (key d = "failsafe_timeout_s"%string) then 120 else Z.min 32 mc) /\
    w = Z.min (Z.max (py_round value) lo) hi /\ lo <= w <= hi /\
    number_set_native_value wire d (Some mc) value =
      (let '(evs, err) := service_write wire d w in (evs, w, err)).
Proof.
  intros Hd Hmc. unfold NUMBER_REGISTERS in Hd.
  repeat rewrite elem_of_cons in Hd. rewrite elem_of_nil in Hd.
  unfold number_set_native_value, number_bounds, number_value.
  destruct Hd as [->|[->|[->|[]]]]; cbn [min_value max_value key with_flags RD fmap option_fmap option_map];
    [exists 6, (Z.min 32 mc) | exists 6, 120 | exists 0, (Z.min 32 mc)];
    eexists; split_and!; try reflexivity; try lia.
  all: first
    [ rewrite bool_decide_eq_true_2 by (apply (bool_decide_unpack _); vm_compute; exact I)
    | rewrite bool_decide_eq_false_2
        by (intros Hin; apply (bool_decide_pack _) in Hin; vm_compute in Hin; exact Hin) ].
  all: cbn [default id]; rewrite ?py_minQ_inject, !py_int_of_Q_inject, !py_min_spec, !py_max_spec.
  all: reflexivity.
Qed.

Lemma words_to_bytes_exc_iff ws e :
  words_to_bytes ws = Exc e <-> e = OverflowError /\ Exists (fun w => ~ (0 <= w <= 0xFFFF)) ws.
Proof.
  split.
  - intros H. split; [by apply words_to_bytes_exc in H|].
    apply not_Forall_Exists; [intros w; apply _|]. intros Hf.
    destruct (words_to_bytes_ok ws Hf) as [bs Hbs]. congruence.
  - intros [-> Hex]. induction Hex as [w ws Hw|w ws Hex IH]; cbn [words_to_bytes].
    + destruct (Z.leb_spec 0 w), (Z.leb_spec w 0xFFFF); cbn; try done; lia.
    + rewrite IH. by destruct (_ && _).
Qed.

Lemma decode_error_cases d ws e :
  decode_register d ws = Exc e <->
  (e = IndexError /\
     match data_type d with Uint16 => ws = [] | Uint32 => (length ws < 2)%nat | StringT => False end) \/
  (e = OverflowError /\ data_type d = StringT /\ Exists (fun w => ~ (0 <= w <= 0xFFFF)) ws) \/
  (e = OverflowError /\
     (data_type d = Uint16 /\ (exists w rest, ws = w :: rest /\ 2 ^ 1024 - 2 ^ 970 <= Z.abs w) \/
      data_type d = Uint32 /\ (exists w0 w1 rest, ws = w0 :: w1 :: rest /\
        2 ^ 1024 - 2 ^ 970 <= Z.abs (Z.shiftl w0 16 + w1)))).
Proof.
  unfold decode_register. destruct (data_type d) eqn:Ht.
  - destruct ws as [|w ws]; cbv beta iota; split.
    + intros [= <-]. by left.
    + by intros [[-> _]|[(_ & H & _)|(_ & [[_ (? & ? & [=] & _)]|[H _]])]].
    + intros [-> Hw]%scaled_exc. right; right. split; [done|]. left. eauto 6.
    + intros [[_ H]|[(_ & H & _)|(-> & [[_ (w' & rest & [= <- <-] & Hw)]|[H _]])]];
        [done|done| |done]. by apply scaled_exc.
  - destruct ws as [|w0 [|w1 ws]]; cbv beta iota; split; intros H.
    + injection H as <-. left. cbn. split; [done|lia].
    + by destruct H as [[-> _]|[(_ & H & _)|(_ & [[H _]|[_ (? & ? & ? & [=] & _)]])]].
    + injection H as <-. left. cbn. split; [done|lia].
    + by destruct H as [[-> _]|[(_ & H & _)|(_ & [[H _]|[_ (? & ? & ? & [=] & _)]])]].
    + apply scaled_exc in H as [-> Hw]. right; right. split; [done|]. right. eauto 7.
    + destruct H as [[_ H]|[(_ & H & _)|(-> & [[H _]|[_ (a & b & rest & [= <- <- <-] & Hw)]])]];
        [cbn in H; lia|done|done|]. by apply scaled_exc.
  - destruct (words_to_bytes ws) as [bs|e'] eqn:E; cbn; split; intros H.
    + discriminate.
    + destruct H as [[_ []]|[(-> & _ & Hex)|(_ & [[H _]|[H _]])]]; [|done..].
      pose proof (proj2 (words_to_bytes_exc_iff ws OverflowError) (conj eq_refl Hex)). congruence.
    + injection H as <-. right; left. apply words_to_bytes_exc_iff in E as [-> Hex]. done.
    + destruct H as [[_ []]|[(-> & _ & Hex)|(_ & [[H _]|[H _]])]]; [|done..].
      apply words_to_bytes_exc_iff in E as [-> _]. done.
Qed.

(** [_decode_register] fails exactly with [IndexError] on too few words
    for an integer register, or with [OverflowError] on a text register
    holding a word outside 16 bits. *)
Theorem decode_register_error_iff d ws e :
  decode_register d ws = Exc e <->
  (e = IndexError /\
     match data_type d with Uint16 => ws = [] | Uint32 => (length ws < 2)%nat | StringT => False end) \/
  (e = OverflowError /\ data_type d = StringT /\ Exists (fun w => ~ (0 <= w <= 0xFFFF)) ws) \/
  (e = OverflowError /\
     (data_type d = Uint16 /\ (exists w rest, ws = w :: rest /\ 2 ^ 1024 - 2 ^ 970 <= Z.abs w) \/
      data_type d = Uint32 /\ (exists w0 w1 rest, ws = w0 :: w1 :: rest /\
        2 ^ 1024 - 2 ^ 970 <= Z.abs (Z.shiftl w0 16 + w1)))).
Proof. exact (decode_error_cases d ws e). Qed.

(** A single read whose words fail to decode raises that error after one
    attempt, without closing or retrying. *)
Theorem single_read_decode_error_not_retried (wire : nat -> Wire) r ws e :
  wire_connects (wire 1%nat) = true ->
  wire_read (wire 1%nat) (single_request r) = Some (Registers ws) ->
  decode_register r ws = Exc e ->
  async_read_register wire r = ([Attempt 1], Exc e) /\ (e = IndexError \/ e = OverflowError).
Proof.
  intros Hc Hw Hd. split.
  - unfold async_read_register, call_with_retry. cbn [retry_loop MAX_RETRY_ATTEMPTS].
    unfold read_register_once. rewrite Hc, Hw. cbn. rewrite Hd.
    apply decode_not_transport in Hd. by rewrite Hd.
  - apply decode_error_cases in Hd as [[-> _]|[(-> & _)|(-> & _)]]; auto.
Qed.

Lemma life_bit_cycle_stop io :
  (life_bit_cycle io).2 = None \/ (life_bit_cycle io).2 = Some CancelledError.
Proof.
  unfold life_bit_cycle.
  destruct (timeout_read io) as [v|[]]; destruct (life_bit_write io) as [[]|[]];
    destruct (poll_result io) as [[]|[]]; cbn; auto.
Qed.

Lemma life_bit_cycle_writes io :
  ~ cycle_cancelled io ->
  (life_bit_cycle io).2 = None /\ life_bit_writes (life_bit_cycle io).1.2 = [1].
Proof.
  unfold cycle_cancelled, life_bit_cycle. intros Hn.
  destruct (timeout_read io) as [v|[]]; destruct (life_bit_write io) as [[]|[]];
    destruct (poll_result io) as [[]|[]]; cbn; tauto.
Qed.

(** The only exception that leaves the life-bit loop is
    [CancelledError]. *)
Theorem life_bit_loop_only_cancel_escapes cycles pt :
  (life_bit_loop cycles pt).2 = None \/ (life_bit_loop cycles pt).2 = Some CancelledError.
Proof.
  revert pt. induction cycles as [|io rest IH]; intros pt; cbn [life_bit_loop]; [by left|].
  pose proof (life_bit_cycle_stop io) as Hs.
  destruct (life_bit_cycle io) as [[p evs] [e|]]; cbn in Hs |- *.
  - destruct Hs as [Hs|Hs]; [done|]. by right.
  - specialize (IH (Some p)). destruct (life_bit_loop rest (Some p)) as [evs' r]. exact IH.
Qed.

(** Over cycles that are not cancelled, the loop keeps running and each
    cycle writes the life bit exactly once, with value 1. *)
Theorem life_bit_loop_writes_each_cycle cycles pt :
  Forall (fun io => ~ cycle_cancelled io) cycles ->
  (life_bit_loop cycles pt).2 = None /\
  life_bit_writes (life_bit_loop cycles pt).1 = replicate (length cycles) 1.
Proof.
  revert pt. induction cycles as [|io rest IH]; intros pt Hall; cbn [life_bit_loop]; [done|].
  inversion Hall as [|? ? Hio Hrest]; subst.
  pose proof (life_bit_cycle_writes io Hio) as [Hs Hw].
  destruct (life_bit_cycle io) as [[p evs] stop]; cbn in Hs, Hw |- *. subst stop.
  specialize (IH (Some p) Hrest). destruct (life_bit_loop rest (Some p)) as [evs' r]; cbn in IH |- *.
  destruct IH as [-> IH]. split; [done|].
  unfold life_bit_writes in *. rewrite omap_app, Hw, IH. reflexivity.
Qed.

(** [resolve_address] moves to the next address exactly when the
    address holds no definition and the next one does, and keeps the
    address otherwise; when the address or the next one holds a
    definition, the result holds one; resolving again changes nothing. *)
Theorem resolve_address_shift st rt a :
  (resolve_address st rt a = a + 1 <->
     ~ address_defined st rt a /\ address_defined st rt (a + 1)) /\
  (resolve_address st rt a = a <->
     ~ (~ address_defined st rt a /\ address_defined st rt (a + 1))) /\
  (address_defined st rt a \/ address_defined st rt (a + 1) ->
     address_defined st rt (resolve_address st rt a)) /\
  resolve_address st rt (resolve_address st rt a) = resolve_address st rt a.
Proof.
  unfold resolve_address, address_defined.
  case_bool_decide as H1.
  - split_and!; [split; [lia|tauto]|tauto|by intros _|].
    by rewrite bool_decide_eq_true_2.
  - case_bool_decide as H2.
    + split_and!; [tauto|split; [lia|tauto]|by intros _|].
      by rewrite bool_decide_eq_true_2.
    + split_and!; [split; [lia|tauto]|tauto|tauto|].
      by rewrite bool_decide_eq_false_2, bool_decide_eq_false_2.
Qed.

(** Witness: the first request of the cached plan and [charge_point_state] in it. *)
Lemma read_plan_covers_witness :
  make_request Holding 1000 1001 [RD "charge_point_state" 1000 1 Holding Uint16 Sensor]
    ∈ build_read_plan (all_registers false) /\
  RD "charge_point_state" 1000 1 Holding Uint16 Sensor
    ∈ rq_registers (make_request Holding 1000 1001 [RD "charge_point_state" 1000 1 Holding Uint16 Sensor]) /\
  (RD "charge_point_state" 1000 1 Holding Uint16 Sensor ∈ all_registers false /\
   register_type (RD "charge_point_state" 1000 1 Holding Uint16 Sensor) =
     rq_register_type (make_request Holding 1000 1001 [RD "charge_point_state" 1000 1 Holding Uint16 Sensor]) /\
   rq_start_address (make_request Holding 1000 1001 [RD "charge_point_state" 1000 1 Holding Uint16 Sensor])
     <= address (RD "charge_point_state" 1000 1 Holding Uint16 Sensor) /\
   address (RD "charge_point_state" 1000 1 Holding Uint16 Sensor) + count (RD "charge_point_state" 1000 1 Holding Uint16 Sensor)
     <= rq_start_address (make_request Holding 1000 1001 [RD "charge_point_state" 1000 1 Holding Uint16 Sensor]) +
        rq_count (make_request Holding 1000 1001 [RD "charge_point_state" 1000 1 Holding Uint16 Sensor])).
Proof.
  assert (H1 : make_request Holding 1000 1001 [RD "charge_point_state" 1000 1 Holding Uint16 Sensor]
                 ∈ build_read_plan (all_registers false))
    by (apply (list_elem_of_lookup_2 _ 0%nat); vm_compute; reflexivity).
  assert (H2 : RD "charge_point_state" 1000 1 Holding Uint16 Sensor
                 ∈ rq_registers (make_request Holding 1000 1001 [RD "charge_point_state" 1000 1 Holding Uint16 Sensor]))
    by (cbn; apply list_elem_of_singleton; reflexivity).
  split; [exact H1|]. split; [exact H2|].
  exact (read_plan_covers _ _ _ H1 H2).
Defined.

(** Witness: the catalog the bridge reads, against the sample store. *)
Lemma simulator_bulk_read_witness :
  reads_from (simulator_wire sample_state 1%nat) sample_state /\ words_in_range sample_state /\
  Forall wf_def (all_registers false) /\ NoDup (map key (all_registers false)) /\
  exists data,
    async_read_data (simulator_wire sample_state) (build_read_plan (all_registers false)) =
      (build_read_plan (all_registers false), [Attempt 1], Ok data) /\
    (forall k x, data !! k = Some x -> k ∈ map key (all_registers false)) /\
    (forall d, d ∈ all_registers false -> exists v,
       decode_register d (read_block sample_state (register_type d) (address d) (count d)) = Ok v /\
       data !! key d = Some (Some v) /\
       async_read_register (simulator_wire sample_state) d = ([Attempt 1], Ok v)).
Proof.
  assert (H1 : reads_from (simulator_wire sample_state 1%nat) sample_state) by (split; [reflexivity|intros; reflexivity]).
  assert (H2 : words_in_range sample_state) by (split; eapply bool_decide_unpack; vm_compute; exact I).
  assert (H3 : Forall wf_def (all_registers false)) by (eapply bool_decide_unpack; vm_compute; exact I).
  assert (H4 : NoDup (map key (all_registers false))) by (eapply bool_decide_unpack; vm_compute; exact I).
  split_and!; [exact H1|exact H2|exact H3|exact H4|].
  exact (simulator_bulk_read _ _ _ H1 H2 H3 H4).
Defined.

(** Witness: a fresh state and writes of 70000 and -1. *)
Lemma simulator_words_16bit_witness :
  create_state empty_scenario = Ok fresh_state /\
  words_in_range (write_all fresh_state [(5004, 70000); (1000, -1)]).
Proof.
  assert (H : create_state empty_scenario = Ok fresh_state) by (vm_compute; reflexivity).
  split; [exact H|]. exact (simulator_words_16bit _ _ _ H).
Defined.

(** Witness: 70000 written to 5004 of the sample store. *)
Lemma write_register_masks_witness :
  match dict_get (Holding, 5004) (definitions_by_address sample_state) with
  | None => True
  | Some d => dict_get (key d) (write_actions sample_state) = None
  end /\
  (write_register sample_state 5004 70000).2 = None /\
  read_block (write_register sample_state 5004 70000).1 Holding 5004 1 = [70000 mod 65536] /\
  input_registers (write_register sample_state 5004 70000).1 = input_registers sample_state /\
  (forall b, b <> 5004 -> holding_registers (write_register sample_state 5004 70000).1 !! b =
                          holding_registers sample_state !! b).
Proof.
  assert (H : match dict_get (Holding, 5004) (definitions_by_address sample_state) with
              | None => True
              | Some d => dict_get (key d) (write_actions sample_state) = None
              end) by exact I.
  split; [exact H|]. exact (write_register_masks sample_state 5004 70000 H).
Defined.

(** Witness: 16 applied to [set_current_a] of a fresh state. *)
Lemma simulator_value_read_back_witness :
  dict_get "set_current_a"%string (definitions_by_key fresh_state) =
    Some (with_flags true true (RD "set_current_a" 5004 1 Holding Uint16 NumberE)) /\
  encode_value (with_flags true true (RD "set_current_a" 5004 1 Holding Uint16 NumberE)) (PInt 16) = Ok [16] /\
  Z.of_nat (length [16]) = count (with_flags true true (RD "set_current_a" 5004 1 Holding Uint16 NumberE)) /\
  exists st', apply_value fresh_state "set_current_a" (PInt 16) = (st', None) /\
    read_block st' Holding 5004 1 = [16] /\
    async_read_register (simulator_wire st') (with_flags true true (RD "set_current_a" 5004 1 Holding Uint16 NumberE)) =
      ([Attempt 1], roundtrip (with_flags true true (RD "set_current_a" 5004 1 Holding Uint16 NumberE)) (PInt 16)).
Proof.
  assert (H1 : dict_get "set_current_a"%string (definitions_by_key fresh_state) =
                 Some (with_flags true true (RD "set_current_a" 5004 1 Holding Uint16 NumberE)))
    by (vm_compute; reflexivity).
  assert (H2 : encode_value (with_flags true true (RD "set_current_a" 5004 1 Holding Uint16 NumberE)) (PInt 16) = Ok [16])
    by (vm_compute; reflexivity).
  assert (H3 : Z.of_nat (length [16]) = count (with_flags true true (RD "set_current_a" 5004 1 Holding Uint16 NumberE)))
    by reflexivity.
  split_and!; [exact H1|exact H2|exact H3|].
  exact (simulator_value_read_back _ _ _ _ _ H1 H2 H3).
Defined.

(** Witness: unit 255 next to unit 1 at the same endpoint. *)
Lemma with_virtual_wallbox_cleanup_witness :
  registry_get wallbox_registry "127.0.0.1" 15020 255 = None /\
  exists reg1,
    registry_get reg1 "127.0.0.1" 15020 255 = Some 0%nat /\
    (forall h' p' u', (h', p', u') <> ("127.0.0.1"%string, 15020, 255) ->
       registry_get reg1 h' p' u' = registry_get wallbox_registry h' p' u') /\
    with_virtual_wallbox wallbox_registry "127.0.0.1" 15020 255 0%nat (fun r => (r, None)) =
      (registry_unregister ((fun r => (r, @None exn)) reg1).1 "127.0.0.1" 15020 255, ((fun r => (r, @None exn)) reg1).2) /\
    registry_get (with_virtual_wallbox wallbox_registry "127.0.0.1" 15020 255 0%nat (fun r => (r, None))).1
      "127.0.0.1" 15020 255 = None /\
    (forall h' p' u', (h', p', u') <> ("127.0.0.1"%string, 15020, 255) ->
       registry_get (with_virtual_wallbox wallbox_registry "127.0.0.1" 15020 255 0%nat (fun r => (r, None))).1 h' p' u' =
       registry_get ((fun r => (r, @None exn)) reg1).1 h' p' u').
Proof.
  assert (H : registry_get wallbox_registry "127.0.0.1" 15020 255 = None) by (vm_compute; reflexivity).
  split; [exact H|].
  exact (with_virtual_wallbox_cleanup wallbox_registry "127.0.0.1" 15020 255 0%nat (fun r => (r, None)) H).
Defined.

(** Witness: unit 255 next to unit 1, with a cancelled body. *)
Lemma with_virtual_wallbox_restores_witness :
  no_empty_bucket wallbox_registry /\ registry_get wallbox_registry "127.0.0.1" 15020 255 = None /\
  with_virtual_wallbox wallbox_registry "127.0.0.1" 15020 255 0%nat (fun r => (r, Some CancelledError)) =
    (wallbox_registry, Some CancelledError).
Proof.
  assert (H1 : no_empty_bucket wallbox_registry).
  { unfold no_empty_bucket, wallbox_registry, registry.
    apply map_Forall_insert_2; [apply insert_non_empty|apply map_Forall_empty]. }
  assert (H2 : registry_get wallbox_registry "127.0.0.1" 15020 255 = None) by (vm_compute; reflexivity).
  split_and!; [exact H1|exact H2|].
  exact (with_virtual_wallbox_restores wallbox_registry _ _ _ 0%nat (Some CancelledError) H1 H2).
Defined.

(** Witness: the simulator's [read_holding_registers] with [count=]. *)
Lemma invoke_with_unit_kwonly_unit_witness :
  ("device_id"%string ∉ ["count"%string]) /\ ("unit"%string ∉ ["count"%string]) /\
  (forall m, @Returned (list Z) [7] <> RaisedTypeError m) /\
  invoke_with_unit (kwonly_unit_method "FakeAsyncModbusTcpClient.read_holding_registers" 3 (Returned [7]))
    ["count"%string] =
  ([UnitKeyword "device_id"; UnitKeyword "unit"], Ok [7]).
Proof.
  assert (H1 : "device_id"%string ∉ ["count"%string]) by (eapply bool_decide_unpack; vm_compute; exact I).
  assert (H2 : "unit"%string ∉ ["count"%string]) by (eapply bool_decide_unpack; vm_compute; exact I).
  assert (H3 : forall m, @Returned (list Z) [7] <> RaisedTypeError m) by (intros m; discriminate).
  split_and!; [exact H1|exact H2|exact H3|].
  exact (invoke_with_unit_kwonly_unit "FakeAsyncModbusTcpClient.read_holding_registers" 3 (Returned [7])
           ["count"%string] H1 H2 H3).
Defined.

(** Witness: a positional-only method with [count=]. *)
Lemma invoke_with_unit_kwargs_no_positional_witness :
  ["count"%string] <> [] /\ UnitPositional ∉ (invoke_with_unit keyword_rejecting_method ["count"%string]).1.
Proof.
  assert (H : ["count"%string] <> []) by discriminate.
  split; [exact H|]. exact (invoke_with_unit_kwargs_no_positional keyword_rejecting_method _ H).
Defined.

(** Witness: a method raising an unrelated [TypeError]. *)
Lemma invoke_with_unit_typeerror_stops_witness :
  ("device_id"%string ∉ ["count"%string]) /\
  (fun _ : unit_arg => @RaisedTypeError Z "unsupported operand type(s)") (UnitKeyword "device_id") =
    RaisedTypeError "unsupported operand type(s)" /\
  is_keyword_unsupported "unsupported operand type(s)" "device_id" = false /\
  invoke_with_unit (fun _ : unit_arg => @RaisedTypeError Z "unsupported operand type(s)") ["count"%string] =
    ([UnitKeyword "device_id"], Exc (WebastoModbusError "unsupported operand type(s)")).
Proof.
  assert (H1 : "device_id"%string ∉ ["count"%string]) by (eapply bool_decide_unpack; vm_compute; exact I).
  assert (H2 : (fun _ : unit_arg => @RaisedTypeError Z "unsupported operand type(s)") (UnitKeyword "device_id") =
               RaisedTypeError "unsupported operand type(s)") by reflexivity.
  assert (H3 : is_keyword_unsupported "unsupported operand type(s)" "device_id" = false) by (vm_compute; reflexivity).
  split_and!; [exact H1|exact H2|exact H3|].
  exact (invoke_with_unit_typeerror_stops _ _ _ H1 H2 H3).
Defined.

(** Witness: a positional-only write method. *)
Lemma invoke_with_unit_positional_fallback_witness :
  Forall (fun kw => (kw ∉ []) /\ (exists m, keyword_rejecting_method (UnitKeyword kw) = RaisedTypeError m /\
                                           is_keyword_unsupported m kw = true)) UNIT_KEYWORDS /\
  invoke_with_unit keyword_rejecting_method [] =
    (map UnitKeyword UNIT_KEYWORDS ++ [UnitPositional], Ok 1).
Proof.
  assert (H : Forall (fun kw => (kw ∉ []) /\ (exists m, keyword_rejecting_method (UnitKeyword kw) = RaisedTypeError m /\
                                                   is_keyword_unsupported m kw = true)) UNIT_KEYWORDS).
  { repeat constructor; try apply not_elem_of_nil; eexists; (split; [reflexivity|vm_compute; reflexivity]). }
  split; [exact H|]. exact (invoke_with_unit_positional_fallback keyword_rejecting_method [] H).
Defined.

(** Witness: 20.5 A on [set_current_a] of an 11 kW wallbox. *)
Lemma number_entity_write_in_bounds_witness :
  with_flags true true (RD "set_current_a" 5004 1 Holding Uint16 NumberE) ∈ NUMBER_REGISTERS /\ 6 <= 16 /\
  exists lo hi w,
    min_value (with_flags true true (RD "set_current_a" 5004 1 Holding Uint16 NumberE)) = Some lo /\
    hi = (if bool_decide (key (with_flags true true (RD "set_current_a" 5004 1 Holding Uint16 NumberE)) =
                          "failsafe_timeout_s"%string) then 120 else Z.min 32 16) /\
    w = Z.min (Z.max (py_round (41 # 2)) lo) hi /\ lo <= w <= hi /\
    number_set_native_value (simulator_wire sample_state)
      (with_flags true true (RD "set_current_a" 5004 1 Holding Uint16 NumberE)) (Some 16) (41 # 2) =
      (let '(evs, err) := service_write (simulator_wire sample_state)
                            (with_flags true true (RD "set_current_a" 5004 1 Holding Uint16 NumberE)) w in
       (evs, w, err)).
Proof.
  assert (H1 : with_flags true true (RD "set_current_a" 5004 1 Holding Uint16 NumberE) ∈ NUMBER_REGISTERS)
    by (apply (list_elem_of_lookup_2 _ 2%nat); reflexivity).
  assert (H2 : 6 <= 16) by lia.
  split_and!; [exact H1|exact H2|].
  exact (number_entity_write_in_bounds _ _ _ _ H1 H2).
Defined.

(** Witness: an empty answer for [charge_point_state]. *)
Lemma single_read_decode_error_not_retried_witness :
  wire_connects (short_read_wire 1%nat) = true /\
  wire_read (short_read_wire 1%nat) (single_request (RD "charge_point_state" 1000 1 Holding Uint16 Sensor)) =
    Some (Registers []) /\
  decode_register (RD "charge_point_state" 1000 1 Holding Uint16 Sensor) [] = Exc IndexError /\
  async_read_register short_read_wire (RD "charge_point_state" 1000 1 Holding Uint16 Sensor) =
    ([Attempt 1], Exc IndexError) /\ (IndexError = IndexError \/ IndexError = OverflowError).
Proof.
  assert (H1 : wire_connects (short_read_wire 1%nat) = true) by reflexivity.
  assert (H2 : wire_read (short_read_wire 1%nat) (single_request (RD "charge_point_state" 1000 1 Holding Uint16 Sensor)) =
               Some (Registers [])) by reflexivity.
  assert (H3 : decode_register (RD "charge_point_state" 1000 1 Holding Uint16 Sensor) [] = Exc IndexError) by reflexivity.
  split; [exact H1|]. split; [exact H2|]. split; [exact H3|].
  exact (single_read_decode_error_not_retried _ _ _ _ H1 H2 H3).
Defined.

(** Witness: two cycles, the second with a failed timeout read. *)
Lemma life_bit_loop_writes_each_cycle_witness :
  Forall (fun io => ~ cycle_cancelled io)
    [cycle_with_read (Ok (DInt 30)); cycle_with_read (Exc (WebastoModbusError "timeout"))] /\
  (life_bit_loop [cycle_with_read (Ok (DInt 30)); cycle_with_read (Exc (WebastoModbusError "timeout"))] None).2 = None /\
  life_bit_writes (life_bit_loop [cycle_with_read (Ok (DInt 30));
                                  cycle_with_read (Exc (WebastoModbusError "timeout"))] None).1 = [1; 1].
Proof.
  assert (H : Forall (fun io => ~ cycle_cancelled io)
                [cycle_with_read (Ok (DInt 30)); cycle_with_read (Exc (WebastoModbusError "timeout"))]).
  { repeat constructor; unfold cycle_cancelled; cbn; intros [Hc|[Hc|Hc]]; discriminate. }
  split; [exact H|]. exact (life_bit_loop_writes_each_cycle _ None H).
Defined.
